(** * BotConfig: the bot configuration store

    A shallow embedding of the [BotConfig] class (BotConfig.js): the
    connected-service list, the naming and uniqueness checks, and the
    secret / verifier protocol that encrypts designated service fields.

    Terminology.  The source calls the caller's passphrase
    [this.internal.secret] and the persisted verifier [this.secretKey]. *)

From stdpp Require Import base decidable option strings list gmap functions pretty.

(** ** JavaScript values held in service fields

    A field of a service object is either absent ([undefined]) or a
    string.  On these two kinds of value the loose comparison [==] of
    the source coincides with equality. *)

Inductive value : Type :=
  | VUndef
  | VStr (s : string).

#[global] Instance value_eq_dec : EqDecision value.
Proof. solve_decision. Defined.

(** [!v || v.length == 0] *)
Definition is_empty (v : value) : bool :=
  match v with
  | VUndef => true
  | VStr s => Nat.eqb (String.length s) 0
  end.

(** [a || b] on values: the first operand when it is truthy. *)
Definition or_value (a b : value) : value :=
  if is_empty a then b else a.

(** ** ServiceType *)

Inductive ServiceType : Type :=
  | Endpoint
  | AzureBotService
  | Luis
  | QnA
  | Dispatch.

#[global] Instance ServiceType_eq_dec : EqDecision ServiceType.
Proof. solve_decision. Defined.

(** The string each member of the enumeration stands for. *)
Definition ServiceType_tag (t : ServiceType) : string :=
  match t with
  | Endpoint => "endpoint"
  | AzureBotService => "abs"
  | Luis => "luis"
  | QnA => "qna"
  | Dispatch => "dispatch"
  end.

(** ** Service objects and the heap

    A connected service is a mutable object: [type], [id] and [name]
    plus the type-specific properties, kept by property name.  Service
    objects live in a heap and are handled by reference, because
    [connectService] and [encryptService] write into the object they
    are handed. *)

Record service : Type := mkService {
  s_type : ServiceType;
  s_id : string;
  s_name : string;
  s_props : gmap string value
}.

(** [service[prop]] *)
Definition get_prop (o : service) (prop : string) : value :=
  default VUndef (s_props o !! prop).

(** [service[prop] = v] *)
Definition set_prop (o : service) (prop : string) (v : value) : service :=
  {| s_type := s_type o; s_id := s_id o; s_name := s_name o;
     s_props := <[prop := v]> (s_props o) |}.

(** [service.name = n] *)
Definition set_name (o : service) (n : string) : service :=
  {| s_type := s_type o; s_id := s_id o; s_name := n;
     s_props := s_props o |}.

Definition loc : Type := nat.

(** ** The store object *)

Record BotConfig : Type := mkBotConfig {
  secretValidated : bool;   (* this.internal.secretValidated *)
  secret : value;           (* this.internal.secret *)
  location : value;         (* this.internal.location *)
  name : string;
  secretKey : string;
  description : string;
  services : list loc
}.

Definition with_secretValidated (v : bool) (b : BotConfig) : BotConfig :=
  {| secretValidated := v; secret := secret b; location := location b;
     name := name b; secretKey := secretKey b; description := description b;
     services := services b |}.

Definition with_secretKey (k : string) (b : BotConfig) : BotConfig :=
  {| secretValidated := secretValidated b; secret := secret b;
     location := location b; name := name b; secretKey := k;
     description := description b; services := services b |}.

Definition with_services (l : list loc) (b : BotConfig) : BotConfig :=
  {| secretValidated := secretValidated b; secret := secret b;
     location := location b; name := name b; secretKey := secretKey b;
     description := description b; services := l |}.

(** [new BotConfig(secret)] *)
Definition newBotConfig (sec : value) : BotConfig :=
  {| secretValidated := false; secret := sec; location := VUndef;
     name := ""; secretKey := ""; description := ""; services := [] |}.

(** ** The written file

    [writeJson] stores the JSON text of
    [{name, description, secretKey, services}]; a property whose value
    is [undefined] is left out of the text. *)

Record ServiceJson : Type := mkServiceJson {
  j_type : string;
  j_id : string;
  j_name : string;
  j_props : gmap string string
}.

Record BotFile : Type := mkBotFile {
  f_name : string;
  f_description : string;
  f_secretKey : string;
  f_services : list ServiceJson
}.

Definition defined_value (v : value) : option string :=
  match v with
  | VUndef => None
  | VStr s => Some s
  end.

Definition to_json (o : service) : ServiceJson :=
  {| j_type := ServiceType_tag (s_type o); j_id := s_id o; j_name := s_name o;
     j_props := omap defined_value (s_props o) |}.

Definition bot_json (b : BotConfig) (h : loc → service) : BotFile :=
  {| f_name := name b; f_description := description b;
     f_secretKey := secretKey b;
     f_services := (λ l, to_json (h l)) <$> services b |}.

(** ** Program state, exceptions and the monad of the methods *)

Record state : Type := mkState {
  bot : BotConfig;             (* this *)
  heap : loc → service;        (* the service objects *)
  disk : gmap string BotFile;  (* files written so far, by path *)
  uuids : nat                  (* how many tokens uuid() has handed out *)
}.

Definition with_bot (b : BotConfig) (st : state) : state :=
  {| bot := b; heap := heap st; disk := disk st; uuids := uuids st |}.

Definition with_heap (h : loc → service) (st : state) : state :=
  {| bot := bot st; heap := h; disk := disk st; uuids := uuids st |}.

Definition with_disk (d : gmap string BotFile) (st : state) : state :=
  {| bot := bot st; heap := heap st; disk := d; uuids := uuids st |}.

Definition with_uuids (n : nat) (st : state) : state :=
  {| bot := bot st; heap := heap st; disk := disk st; uuids := n |}.

Inductive error : Type :=
  | AlreadyConnected (id : string)
      (* service with ${id} already connected *)
  | ServiceNotFound (nameOrId : string)
      (* a service with id or name of [${nameOrId}] was not found *)
  | SecretMissing
      (* ... needs access to the secret and --secret is missing *)
  | SecretIncorrect
      (* ... needs access to the secret and --secret is incorrect. *)
  | CryptoError
      (* raised inside the crypto module *)
  | WriteError
      (* writeJson rejected: no usable path *)
  | LoopBound.
      (* the bound of a modelled loop was hit; never a source exception *)

#[global] Instance error_eq_dec : EqDecision error.
Proof. solve_decision. Defined.

Inductive outcome (A : Type) : Type :=
  | Ok (a : A)
  | Throw (e : error).

Arguments Ok {A} a.
Arguments Throw {A} e.

(** A method call: it may change the state and ends by returning or by
    throwing; changes made before a throw stay. *)
Definition M (A : Type) : Type := state → outcome A * state.

Definition ret {A} (a : A) : M A := λ st, (Ok a, st).

Definition throw {A} (e : error) : M A := λ st, (Throw e, st).

Definition bind {A B} (m : M A) (k : A → M B) : M B :=
  λ st,
    match m st with
    | (Ok a, st') => k a st'
    | (Throw e, st') => (Throw e, st')
    end.

(** [try { m } catch (_a) { h }] *)
Definition try_catch {A} (m : M A) (h : M A) : M A :=
  λ st,
    match m st with
    | (Ok a, st') => (Ok a, st')
    | (Throw _, st') => h st'
    end.

Definition gets {A} (f : state → A) : M A := λ st, (Ok (f st), st).

Definition modify (f : state → state) : M unit := λ st, (Ok tt, f st).

Declare Scope method_scope.
Delimit Scope method_scope with method.
Notation "x <- c1 ;; c2" := (bind c1 (λ x, c2))
  (at level 100, c1 at next level, right associativity) : method_scope.
Notation "c1 ;; c2" := (bind c1 (λ _, c2))
  (at level 100, right associativity) : method_scope.
Open Scope method_scope.

(** [for (let x of xs) body(x)] *)
Fixpoint for_of {A} (xs : list A) (body : A → M unit) : M unit :=
  match xs with
  | [] => ret tt
  | x :: rest => body x ;; for_of rest body
  end.

(** [service[prop] = v] through the reference. *)
Definition write_prop (l : loc) (prop : string) (v : value) : M unit :=
  modify (λ st, with_heap (<[l := set_prop (heap st l) prop v]> (heap st)) st).

(** [service.name = n] through the reference. *)
Definition write_name (l : loc) (n : string) : M unit :=
  modify (λ st, with_heap (<[l := set_name (heap st l) n]> (heap st)) st).

(** ** linq-collections, as used by the source *)

(** [Enumerable.any()] *)
Definition any {A} (l : list A) : bool :=
  match l with
  | [] => false
  | _ :: _ => true
  end.

(** [Enumerable.where(p)] *)
Definition where_ {A} (p : A → bool) (l : list A) : list A :=
  List.filter p l.

(** ** Calls made on a store

    The methods a caller may invoke on one instance, one after the
    other. *)

Inductive call : Type :=
  | CallValidateSecretKey
  | CallEncryptValue (v : value)
  | CallDecryptValue (v : value)
  | CallEncryptService (l : loc)
  | CallDecryptService (l : loc)
  | CallEncryptAll
  | CallDecryptAll
  | CallSave (botpath : value)
  | CallClearSecret
  | CallConnectService (newService : loc)
  | CallDisconnectService (type : ServiceType) (id : string)
  | CallDisconnectServiceByNameOrId (nameOrId : string).

(** ** A stand-in cipher, to run the methods on concrete stores

    The ciphertext is the plaintext behind a tag made of the secret;
    deciphering with another secret finds the wrong tag and raises. *)

Fixpoint strip_prefix (pre s : string) : option string :=
  match pre, s with
  | EmptyString, _ => Some s
  | String a pre', String b s' =>
      if Ascii.eqb a b then strip_prefix pre' s' else None
  | String _ _, EmptyString => None
  end.

Definition tag_cipher (sec text : string) : string :=
  "#" +:+ sec +:+ ":" +:+ text.

Definition tag_decipher (sec hex : string) : option string :=
  strip_prefix ("#" +:+ sec +:+ ":") hex.

Definition count_uuid (n : nat) : string := "token-" +:+ pretty n.

(** Sample objects: every reference not listed holds a blank endpoint. *)
Definition blank_service : service :=
  {| s_type := Endpoint; s_id := ""; s_name := ""; s_props := ∅ |}.

Definition sample_heap : loc → service :=
  <[0 := {| s_type := AzureBotService; s_id := "bot-1"; s_name := "Foo";
            s_props := {[ "appPassword" := VStr "pw" ]} |}]>
  (<[1 := {| s_type := Endpoint; s_id := "ep-1"; s_name := "Foo";
             s_props := {[ "appPassword" := VStr "pw" ]} |}]>
  (<[2 := {| s_type := Luis; s_id := "luis-1"; s_name := "Foo";
             s_props := {[ "authoringKey" := VStr "ak" ]} |}]>
  (<[3 := {| s_type := Luis; s_id := "luis-1"; s_name := "Bar";
             s_props := ∅ |}]>
  (λ _, blank_service)))).

Definition sample_bot (sec : value) (key : string) (svcs : list loc)
    : BotConfig :=
  {| secretValidated := false; secret := sec; location := VStr "my.bot";
     name := "bot"; secretKey := key; description := ""; services := svcs |}.

Definition sample_state (b : BotConfig) : state :=
  {| bot := b; heap := sample_heap; disk := ∅; uuids := 0 |}.

(** A store built with the secret "abc" that has no verifier yet. *)
Definition new_store : state :=
  sample_state (sample_bot (VStr "abc") "" [0; 1]).

(** A store whose verifier was made with "abc", with that secret
    supplied and not validated yet. *)
Definition loaded_store : state :=
  sample_state (sample_bot (VStr "abc") (tag_cipher "abc" "token-0") [0; 1]).

(** The same store with no secret supplied. *)
Definition locked_store : state :=
  sample_state (sample_bot VUndef (tag_cipher "abc" "token-0") [0; 1]).

(** ** The methods of BotConfig *)

Section BotConfig.

(** The crypto module and the uuid generator are libraries outside
    the repository.  [cipher secret text] is the hex text produced by
    [createCipher('aes192', secret)] on [text] ([update] then
    [final]); [decipher secret hex] is what [createDecipher] yields
    for [hex], [None] when [update] or [final] raises.  [uuid n] is
    the n-th token handed out by [uuid()]. *)
Variable cipher : string → string → string.
Variable decipher : string → string → option string.
Variable uuid : nat → string.

(** [uuid()] *)
Definition next_uuid : M string :=
  n <- gets uuids ;;
  modify (with_uuids (S n)) ;;
  ret (uuid n).

Definition internalEncrypt (v : string) : M string :=
  b <- gets bot ;;
  match secret b with
  | VStr s => ret (cipher s v)
  | VUndef => throw CryptoError   (* createCipher rejects a missing password *)
  end.

Definition internalDecrypt (encryptedValue : string) : M string :=
  b <- gets bot ;;
  match secret b with
  | VStr s =>
      match decipher s encryptedValue with
      | Some v => ret v
      | None => throw CryptoError
      end
  | VUndef => throw CryptoError
  end.

(** The [else] branch of the [try] block of validateSecretKey: the
    verifier is deciphered with the secret and the text is dropped. *)
Definition decipher_secretKey : M unit :=
  b <- gets bot ;;
  match secret b with
  | VStr s =>
      match decipher s (secretKey b) with
      | Some _ => ret tt
      | None => throw CryptoError
      end
  | VUndef => throw CryptoError
  end.

Definition validateSecretKey : M unit :=
  b <- gets bot ;;
  if secretValidated b then ret tt
  else if is_empty (secret b) then throw SecretMissing
  else
    try_catch
      ((if Nat.eqb (String.length (secretKey b)) 0 then
          t <- next_uuid ;;
          k <- internalEncrypt t ;;
          modify (λ st, with_bot (with_secretKey k (bot st)) st)
        else decipher_secretKey) ;;
       modify (λ st, with_bot (with_secretValidated true (bot st)) st))
      (throw SecretIncorrect).

Definition encryptValue (v : value) : M value :=
  match v with
  | VUndef => ret v
  | VStr p =>
      if Nat.eqb (String.length p) 0 then ret v
      else
        b <- gets bot ;;
        if Nat.ltb 0 (String.length (secretKey b)) then
          validateSecretKey ;;
          c <- internalEncrypt p ;;
          ret (VStr c)
        else ret v
  end.

Definition decryptValue (encryptedValue : value) : M value :=
  match encryptedValue with
  | VUndef => ret encryptedValue
  | VStr c =>
      if Nat.eqb (String.length c) 0 then ret encryptedValue
      else
        b <- gets bot ;;
        if Nat.ltb 0 (String.length (secretKey b)) then
          validateSecretKey ;;
          p <- internalDecrypt c ;;
          ret (VStr p)
        else ret encryptedValue
  end.

(** [this.encryptedProperties[type]], with the table of the
    constructor. *)
Definition getEncryptedProperties (t : ServiceType) : list string :=
  match t with
  | Endpoint => ["appPassword"]
  | AzureBotService => ["appPassord"]
  | Luis => ["authoringKey"; "subscriptionKey"]
  | QnA => ["subscriptionKey"]
  | Dispatch => ["authoringKey"; "subscriptionKey"]
  end.

(** The body of the [for] loop of encryptService / decryptService,
    for the properties still to visit. *)
Fixpoint transform_props (f : value → M value) (l : loc)
    (props : list string) : M unit :=
  match props with
  | [] => ret tt
  | prop :: rest =>
      h <- gets heap ;;
      let val := get_prop (h l) prop in
      v <- f val ;;
      write_prop l prop v ;;
      transform_props f l rest
  end.

Definition encryptService (l : loc) : M loc :=
  h <- gets heap ;;
  let encryptedProperties := getEncryptedProperties (s_type (h l)) in
  transform_props encryptValue l encryptedProperties ;;
  ret l.

Definition decryptService (l : loc) : M loc :=
  h <- gets heap ;;
  let encryptedProperties := getEncryptedProperties (s_type (h l)) in
  transform_props decryptValue l encryptedProperties ;;
  ret l.

Definition encryptAll : M unit :=
  b <- gets bot ;;
  for_of (services b) (λ l, encryptService l ;; ret tt).

Definition decryptAll : M unit :=
  b <- gets bot ;;
  for_of (services b) (λ l, decryptService l ;; ret tt).

(** [fsx.writeJson(path, obj)]: the file at [path] becomes the JSON
    text of [obj]; the call is rejected when there is no path. *)
Definition writeJson (path : value) (obj : BotFile) : M unit :=
  match path with
  | VStr p =>
      if Nat.eqb (String.length p) 0 then throw WriteError
      else modify (λ st, with_disk (<[p := obj]> (disk st)) st)
  | VUndef => throw WriteError
  end.

Definition Save (botpath : value) : M unit :=
  b <- gets bot ;;
  let hasSecret := Nat.ltb 0 (String.length (secretKey b)) in
  (if hasSecret then encryptAll else ret tt) ;;
  st <- gets (λ st, st) ;;
  writeJson (or_value botpath (location (bot st)))
            (bot_json (bot st) (heap st)) ;;
  (if hasSecret then decryptAll else ret tt).

Definition clearSecret : M unit :=
  validateSecretKey ;;
  modify (λ st, with_bot (with_secretKey "" (bot st)) st).

(** The candidate name tried when the counter is [nameCount]. *)
Definition candidate_name (base : string) (nameCount : nat)
    (current : string) : string :=
  if Nat.ltb 1 nameCount
  then base +:+ " (" +:+ pretty nameCount +:+ ")"
  else current.

(** The [while (true)] loop of connectService.  [fuel] bounds the
    number of iterations; [None] means the bound was hit. *)
Fixpoint unique_name (fuel : nat) (h : loc → service) (svcs : list loc)
    (base : string) (nameCount : nat) (current : string) : option string :=
  match fuel with
  | 0 => None
  | S fuel' =>
      let name := candidate_name base nameCount current in
      if negb (any (where_ (λ s, String.eqb (s_name (h s)) name) svcs))
      then Some name
      else unique_name fuel' h svcs base (S nameCount) name
  end.

Definition connectService (newService : loc) : M unit :=
  b <- gets bot ;;
  h <- gets heap ;;
  if any (where_ (λ s, String.eqb (s_id (h s)) (s_id (h newService)))
           (where_ (λ s, bool_decide (s_type (h s) = s_type (h newService)))
              (services b)))
  then throw (AlreadyConnected (s_id (h newService)))
  else
    match unique_name (S (length (services b))) h (services b)
            (s_name (h newService)) 1 (s_name (h newService)) with
    | None => throw LoopBound
    | Some name =>
        write_name newService name ;;
        modify (λ st, with_bot
                        (with_services (services (bot st) ++ [newService])
                           (bot st)) st)
    end.

(** The [for] loop shared by the two disconnect methods: [n] counts
    the indices still to visit, [i] is the current one.  The result
    is the array after [removeAt(i)] at the first hit. *)
Fixpoint remove_first (p : loc → bool) (svs : list loc) (i n : nat)
    : option (list loc) :=
  match n with
  | 0 => None
  | S n' =>
      match svs !! i with
      | Some service =>
          if p service then Some (delete i svs)
          else remove_first p svs (S i) n'
      | None => None
      end
  end.

Definition disconnectServiceByNameOrId (nameOrId : string) : M unit :=
  b <- gets bot ;;
  h <- gets heap ;;
  let svs := services b in
  match remove_first
          (λ s, String.eqb (s_id (h s)) nameOrId
                || String.eqb (s_name (h s)) nameOrId)
          svs 0 (length svs) with
  | Some svs' => modify (λ st, with_bot (with_services svs' (bot st)) st)
  | None => throw (ServiceNotFound nameOrId)
  end.

Definition disconnectService (type : ServiceType) (id : string) : M unit :=
  b <- gets bot ;;
  h <- gets heap ;;
  let svs := services b in
  match remove_first
          (λ s, bool_decide (s_type (h s) = type)
                && String.eqb (s_id (h s)) id)
          svs 0 (length svs) with
  | Some svs' => modify (λ st, with_bot (with_services svs' (bot st)) st)
  | None => ret tt
  end.


(** One call, its result dropped, and a sequence of calls; a call that
    throws leaves the store as it was at the throw and the caller goes
    on. *)
Definition run_call (c : call) : M unit :=
  match c with
  | CallValidateSecretKey => validateSecretKey
  | CallEncryptValue v => encryptValue v ;; ret tt
  | CallDecryptValue v => decryptValue v ;; ret tt
  | CallEncryptService l => encryptService l ;; ret tt
  | CallDecryptService l => decryptService l ;; ret tt
  | CallEncryptAll => encryptAll
  | CallDecryptAll => decryptAll
  | CallSave botpath => Save botpath
  | CallClearSecret => clearSecret
  | CallConnectService newService => connectService newService
  | CallDisconnectService type id => disconnectService type id
  | CallDisconnectServiceByNameOrId nameOrId =>
      disconnectServiceByNameOrId nameOrId
  end.

Fixpoint run_calls (cs : list call) (st : state) : state :=
  match cs with
  | [] => st
  | c :: rest => run_calls rest (snd (run_call c st))
  end.

(** [m] never takes the validated flag down. *)
Definition keeps_flag {A} (m : M A) : Prop :=
  ∀ st, secretValidated (bot st) = true →
        secretValidated (bot (snd (m st))) = true.

(** The names already taken in the store, and the name tried at the
    n-th turn of the naming loop of connectService. *)
Definition taken_names (h : loc → service) (svcs : list loc) : list string :=
  (λ l, s_name (h l)) <$> svcs.

Definition nth_name (base : string) (n : nat) : string :=
  candidate_name base n base.

(** The store after [newService.name = name; this.services.push(newService)]. *)
Definition connected (newService : loc) (name : string) (st : state) : state :=
  with_bot (with_services (services (bot st) ++ [newService]) (bot st))
    (with_heap (<[newService := set_name (heap st newService) name]> (heap st))
       st).

(** [s] has the type and the id of [newService]. *)
Definition same_type_id (h : loc → service) (newService s : loc) : Prop :=
  s_type (h s) = s_type (h newService) ∧ s_id (h s) = s_id (h newService).

#[local] Instance same_type_id_dec (h : loc → service) (l s : loc) :
  Decision (same_type_id h l s).
Proof. unfold same_type_id. apply _. Defined.

(** What encryptValue returns for [v] once the secret [s] is accepted. *)
Definition encrypt_pure (s : string) (v : value) : value :=
  match v with
  | VUndef => VUndef
  | VStr p => if Nat.eqb (String.length p) 0 then v else VStr (cipher s p)
  end.

(** The store accepts the secret [s]: a verifier is present and either
    the secret was validated before or the verifier deciphers under it. *)
Definition accepts (s : string) (st : state) : Prop :=
  secret (bot st) = VStr s
  ∧ secretKey (bot st) ≠ ""
  ∧ (secretValidated (bot st) = true
     ∨ (s ≠ "" ∧ is_Some (decipher s (secretKey (bot st))))).

(** [st'] differs from [st] at most in the objects and in the validated
    flag, which may have been set. *)
Definition same_store (st st' : state) : Prop :=
  disk st' = disk st ∧ uuids st' = uuids st
  ∧ (bot st' = bot st ∨ bot st' = with_secretValidated true (bot st)).

(** The objects of [h] are those of [h0] with each sensitive property of
    [l] enciphered [cnt l] times. *)
Definition layered (s : string) (h0 : loc → service) (cnt : loc → nat)
    (h : loc → service) : Prop :=
  ∀ l,
    s_type (h l) = s_type (h0 l) ∧ s_id (h l) = s_id (h0 l)
    ∧ s_name (h l) = s_name (h0 l)
    ∧ ∀ k, get_prop (h l) k =
           if decide (k ∈ getEncryptedProperties (s_type (h0 l)))
           then Nat.iter (cnt l) (encrypt_pure s) (get_prop (h0 l) k)
           else get_prop (h0 l) k.

(** ** Relations kept by the methods *)

(** [m] takes every store to one related to it by [R], whether it
    returns or throws. *)
Definition preserves {A} (R : relation state) (m : M A) : Prop :=
  ∀ st, R st (snd (m st)).

(** The relation of a store property that, once true, stays true. *)
Definition keeps (P : state → Prop) : relation state :=
  λ st st', P st → P st'.

(** [st'] has the services list of [st], and every object has the type,
    id and name it has in [st]. *)
Definition same_identity (st st' : state) : Prop :=
  services (bot st') = services (bot st)
  ∧ ∀ l, s_type (heap st' l) = s_type (heap st l)
         ∧ s_id (heap st' l) = s_id (heap st l)
         ∧ s_name (heap st' l) = s_name (heap st l).

(** The two uniqueness invariants of the services list. *)
Definition type_id_of (h : loc → service) (l : loc) : ServiceType * string :=
  (s_type (h l), s_id (h l)).

Definition unique_type_id (st : state) : Prop :=
  NoDup (type_id_of (heap st) <$> services (bot st)).

Definition unique_names (st : state) : Prop :=
  NoDup (taken_names (heap st) (services (bot st))).

(** A store on which clearSecret has run: validated, without verifier. *)
Definition cleared (st : state) : Prop :=
  secretValidated (bot st) = true ∧ secretKey (bot st) = "".

(** The store has a verifier and turns the supplied secret down with
    [e]: no secret was supplied, or the verifier does not decipher
    under it. *)
Definition rejects (e : error) (st : state) : Prop :=
  secretValidated (bot st) = false
  ∧ secretKey (bot st) ≠ ""
  ∧ ((is_empty (secret (bot st)) = true ∧ e = SecretMissing)
     ∨ (∃ s, secret (bot st) = VStr s ∧ s ≠ ""
             ∧ decipher s (secretKey (bot st)) = None
             ∧ e = SecretIncorrect)).

(** Every object of [h'] reads as it does in [h]. *)
Definition same_reads (h h' : loc → service) : Prop :=
  ∀ l, s_type (h' l) = s_type (h l) ∧ s_id (h' l) = s_id (h l)
       ∧ s_name (h' l) = s_name (h l)
       ∧ ∀ k, get_prop (h' l) k = get_prop (h l) k.

(** Some listed service holds a non-empty value in a property that the
    table lists for its type. *)
Definition has_secrets (h : loc → service) (svcs : list loc) : bool :=
  existsb
    (λ l, existsb (λ k, negb (is_empty (get_prop (h l) k)))
            (getEncryptedProperties (s_type (h l))))
    svcs.

(** ** Load

    [readJson] parses the file into new objects.  The heap has no
    allocator of its own, so Load is told the first of the consecutive
    references the parsed services get ([fresh]); the caller passes one
    past every reference in use. *)

(** The member of ServiceType a [type] string of a file stands for. *)
Definition of_tag (tag : string) : option ServiceType :=
  List.find (λ t, String.eqb (ServiceType_tag t) tag)
    [Endpoint; AzureBotService; Luis; QnA; Dispatch].

(** The object parsed from the JSON text of a service. *)
Definition of_json (j : ServiceJson) : option service :=
  match of_tag (j_type j) with
  | Some t =>
      Some {| s_type := t; s_id := j_id j; s_name := j_name j;
              s_props := VStr <$> j_props j |}
  | None => None
  end.

(** The heap with [objs] at the references [fresh], [fresh + 1], ... *)
Fixpoint alloc (fresh : loc) (objs : list service) (h : loc → service)
    : loc → service :=
  match objs with
  | [] => h
  | o :: rest => <[fresh := o]> (alloc (S fresh) rest h)
  end.

Inductive load_result : Type :=
  | Loaded (r : outcome unit) (st : state)
      (* Load ran; [st] holds the new instance *)
  | ReadRejected
      (* readJson rejected: no path, or no such file *)
  | Untyped.
      (* the file lists a service whose type is no member of ServiceType *)

Definition Load (fresh : loc) (botpath : string) (sec : value) (st : state)
    : load_result :=
  match (if Nat.eqb (String.length botpath) 0 then None
         else disk st !! botpath) with
  | None => ReadRejected
  | Some f =>
      match mapM of_json (f_services f) with
      | None => Untyped
      | Some objs =>
          let b := {| secretValidated := false; secret := sec;
                      location := VStr botpath; name := f_name f;
                      secretKey := f_secretKey f;
                      description := f_description f;
                      services := seq fresh (length objs) |} in
          let st1 := with_bot b (with_heap (alloc fresh objs (heap st)) st) in
          let hasSecret :=
            negb (is_empty sec) && Nat.ltb 0 (String.length (secretKey b)) in
          let (r, st2) := (if hasSecret then decryptAll else ret tt) st1 in
          Loaded r st2
      end
  end.

(** What a service object looks like after a trip through the file: its
    [undefined] properties are gone. *)
Definition through_json (o : service) : service :=
  {| s_type := s_type o; s_id := s_id o; s_name := s_name o;
     s_props := VStr <$> omap defined_value (s_props o) |}.

(** ** More sample stores *)

(** A validated store with a verifier that was never loaded or saved:
    it has no location. *)
Definition unsaved_store : state :=
  sample_state
    {| secretValidated := true; secret := VStr "abc"; location := VUndef;
       name := "bot"; secretKey := tag_cipher "abc" "token-0";
       description := ""; services := [1; 2] |}.

(** A file as Save writes it under the secret "abc", and a store whose
    disk holds it. *)
Definition sample_file : BotFile :=
  {| f_name := "bot"; f_description := "";
     f_secretKey := tag_cipher "abc" "token-0";
     f_services :=
       [{| j_type := "endpoint"; j_id := "ep-1"; j_name := "Foo";
           j_props := {[ "appPassword" := tag_cipher "abc" "pw" ]} |}] |}.

Definition sample_objects : list service :=
  [{| s_type := Endpoint; s_id := "ep-1"; s_name := "Foo";
      s_props := {[ "appPassword" := VStr (tag_cipher "abc" "pw") ]} |}].

Definition disk_store : state :=
  {| bot := newBotConfig VUndef; heap := sample_heap;
     disk := {[ "enc.bot" := sample_file ]}; uuids := 0 |}.

(** * Properties *)

(** ** Strings and values *)

Lemma length_zero_iff (s : string) : String.length s = 0 ↔ s = "".
Proof. destruct s; simpl; split; intros; congruence. Qed.

Lemma length_eqb_zero (s : string) :
  Nat.eqb (String.length s) 0 = bool_decide (s = "").
Proof. destruct s; reflexivity. Qed.

Lemma length_ltb_zero (s : string) :
  Nat.ltb 0 (String.length s) = negb (bool_decide (s = "")).
Proof. destruct s; reflexivity. Qed.

Lemma is_empty_VStr (s : string) : is_empty (VStr s) = bool_decide (s = "").
Proof. apply length_eqb_zero. Qed.

Lemma app_cons (a : Ascii.ascii) (s t : string) :
  String a s +:+ t = String a (s +:+ t).
Proof. reflexivity. Qed.

Lemma app_empty_l (t : string) : "" +:+ t = t.
Proof. reflexivity. Qed.

Lemma app_assoc_string (s t u : string) : s +:+ t +:+ u = (s +:+ t) +:+ u.
Proof.
  induction s as [|a s IH]; [reflexivity|].
  rewrite !app_cons. by rewrite IH.
Qed.

Lemma length_app_string (s t : string) :
  String.length (s +:+ t) = String.length s + String.length t.
Proof.
  induction s as [|a s IH]; [reflexivity|].
  rewrite app_cons. simpl. by rewrite IH.
Qed.

Lemma strip_prefix_app (pre s : string) :
  strip_prefix pre (pre +:+ s) = Some s.
Proof.
  induction pre as [|a pre IH]; [reflexivity|].
  rewrite app_cons. simpl. rewrite Ascii.eqb_refl. exact IH.
Qed.

Lemma tag_decipher_cipher (sec text : string) :
  tag_decipher sec (tag_cipher sec text) = Some text.
Proof.
  unfold tag_decipher, tag_cipher.
  rewrite (app_assoc_string sec ":" text), (app_assoc_string "#" _ text).
  apply strip_prefix_app.
Qed.

Lemma tag_cipher_nonempty (sec text : string) : tag_cipher sec text ≠ "".
Proof. discriminate. Qed.

(** ** The secret and its verifier *)

(** What the crypto module guarantees: a ciphertext is at least one
    block long, and deciphering with the enciphering secret gives the
    text back. *)
Hypothesis cipher_nonempty : ∀ s p, cipher s p ≠ "".
Hypothesis decipher_cipher : ∀ s p, decipher s (cipher s p) = Some p.

Lemma validateSecretKey_validated (st : state) :
  secretValidated (bot st) = true → validateSecretKey st = (Ok tt, st).
Proof.
  intros Hv. unfold validateSecretKey, bind, gets; simpl.
  by rewrite Hv.
Qed.

Lemma validateSecretKey_missing (st : state) :
  secretValidated (bot st) = false →
  is_empty (secret (bot st)) = true →
  validateSecretKey st = (Throw SecretMissing, st).
Proof.
  intros Hv He. unfold validateSecretKey, bind, gets; simpl.
  by rewrite Hv, He.
Qed.

(** First use of a secret: a fresh token is enciphered into the
    verifier. *)
Lemma validateSecretKey_bootstrap (st : state) (s : string) :
  secretValidated (bot st) = false →
  secret (bot st) = VStr s → s ≠ "" →
  secretKey (bot st) = "" →
  validateSecretKey st =
    (Ok tt,
     with_bot (with_secretValidated true
                 (with_secretKey (cipher s (uuid (uuids st))) (bot st)))
              (with_uuids (S (uuids st)) st)).
Proof.
  intros Hv Hs Hne Hk.
  unfold validateSecretKey, bind, gets, try_catch; simpl.
  rewrite Hv, Hs, is_empty_VStr, bool_decide_eq_false_2 by done.
  rewrite Hk; simpl.
  unfold next_uuid, internalEncrypt, bind, gets, modify, ret; simpl.
  rewrite Hs; simpl. reflexivity.
Qed.

(** A verifier is present: the secret is accepted exactly when the
    verifier deciphers without raising. *)
Lemma validateSecretKey_check (st : state) (s : string) :
  secretValidated (bot st) = false →
  secret (bot st) = VStr s → s ≠ "" →
  secretKey (bot st) ≠ "" →
  validateSecretKey st =
    match decipher s (secretKey (bot st)) with
    | Some _ => (Ok tt, with_bot (with_secretValidated true (bot st)) st)
    | None => (Throw SecretIncorrect, st)
    end.
Proof.
  intros Hv Hs Hne Hk.
  unfold validateSecretKey, bind, gets, try_catch; simpl.
  rewrite Hv, Hs, is_empty_VStr, bool_decide_eq_false_2 by done.
  rewrite length_eqb_zero, bool_decide_eq_false_2 by done.
  unfold decipher_secretKey, bind, gets, modify, ret, throw; simpl.
  rewrite Hs. by destruct (decipher s (secretKey (bot st))).
Qed.

(** Whatever validateSecretKey does, it leaves the secret, the
    services, the objects and the disk alone, and it never empties a
    verifier. *)
Lemma validateSecretKey_frame (st st' : state) (r : outcome unit) :
  validateSecretKey st = (r, st') →
  secret (bot st') = secret (bot st)
  ∧ services (bot st') = services (bot st)
  ∧ heap st' = heap st ∧ disk st' = disk st
  ∧ (secretKey (bot st) ≠ "" → bot st' = bot st ∨
       bot st' = with_secretValidated true (bot st))
  ∧ (secretKey (bot st) ≠ "" → uuids st' = uuids st).
Proof.
  intros H.
  destruct (secretValidated (bot st)) eqn:Hv.
  { rewrite validateSecretKey_validated in H by done.
    inversion H; subst. naive_solver. }
  destruct (is_empty (secret (bot st))) eqn:He.
  { rewrite validateSecretKey_missing in H by done.
    inversion H; subst. naive_solver. }
  destruct (secret (bot st)) as [|s] eqn:Hs; [done|].
  rewrite is_empty_VStr in He. apply bool_decide_eq_false in He.
  destruct (decide (secretKey (bot st) = "")) as [Hk|Hk].
  - rewrite (validateSecretKey_bootstrap st s) in H by done.
    inversion H; subst; simpl. naive_solver.
  - rewrite (validateSecretKey_check st s) in H by done.
    destruct (decipher s (secretKey (bot st)));
      inversion H; subst; simpl; naive_solver.
Qed.


Lemma validateSecretKey_Ok (st st' : state) :
  validateSecretKey st = (Ok tt, st') → secretValidated (bot st') = true.
Proof.
  intros H.
  destruct (secretValidated (bot st)) eqn:Hv.
  { rewrite validateSecretKey_validated in H by done. by inversion H; subst. }
  destruct (is_empty (secret (bot st))) eqn:He.
  { by rewrite validateSecretKey_missing in H. }
  destruct (secret (bot st)) as [|s] eqn:Hs; [done|].
  rewrite is_empty_VStr in He. apply bool_decide_eq_false in He.
  destruct (decide (secretKey (bot st) = "")) as [Hk|Hk].
  - rewrite (validateSecretKey_bootstrap st s) in H by done.
    by inversion H; subst.
  - rewrite (validateSecretKey_check st s) in H by done.
    destruct (decipher s (secretKey (bot st))); by inversion H; subst.
Qed.

(** The two pass-through cases of encryptValue and decryptValue: an
    empty value, or a store without verifier. *)
Lemma encryptValue_passthrough (st : state) (v : value) :
  is_empty v = true ∨ secretKey (bot st) = "" →
  encryptValue v st = (Ok v, st).
Proof.
  intros Hc. destruct v as [|p]; [reflexivity|].
  unfold encryptValue. rewrite length_eqb_zero.
  case_bool_decide; [reflexivity|].
  destruct Hc as [Hc|Hc].
  - rewrite is_empty_VStr in Hc. by apply bool_decide_eq_true in Hc.
  - unfold bind, gets; simpl. by rewrite Hc.
Qed.

Lemma decryptValue_passthrough (st : state) (v : value) :
  is_empty v = true ∨ secretKey (bot st) = "" →
  decryptValue v st = (Ok v, st).
Proof.
  intros Hc. destruct v as [|p]; [reflexivity|].
  unfold decryptValue. rewrite length_eqb_zero.
  case_bool_decide; [reflexivity|].
  destruct Hc as [Hc|Hc].
  - rewrite is_empty_VStr in Hc. by apply bool_decide_eq_true in Hc.
  - unfold bind, gets; simpl. by rewrite Hc.
Qed.

(** With a verifier, a non-empty value goes through validation and then
    through the cipher. *)
Lemma encryptValue_unfold (st : state) (p : string) :
  p ≠ "" → secretKey (bot st) ≠ "" →
  encryptValue (VStr p) st =
    (validateSecretKey ;; c <- internalEncrypt p ;; ret (VStr c)) st.
Proof.
  intros Hp Hk. unfold encryptValue.
  rewrite length_eqb_zero, bool_decide_eq_false_2 by done.
  unfold bind at 1. unfold gets at 1.
  by rewrite length_ltb_zero, bool_decide_eq_false_2.
Qed.

Lemma decryptValue_unfold (st : state) (c : string) :
  c ≠ "" → secretKey (bot st) ≠ "" →
  decryptValue (VStr c) st =
    (validateSecretKey ;; p <- internalDecrypt c ;; ret (VStr p)) st.
Proof.
  intros Hp Hk. unfold decryptValue.
  rewrite length_eqb_zero, bool_decide_eq_false_2 by done.
  unfold bind at 1. unfold gets at 1.
  by rewrite length_ltb_zero, bool_decide_eq_false_2.
Qed.

Lemma encryptValue_validated (st : state) (s p : string) :
  secretValidated (bot st) = true → secret (bot st) = VStr s →
  secretKey (bot st) ≠ "" → p ≠ "" →
  encryptValue (VStr p) st = (Ok (VStr (cipher s p)), st).
Proof.
  intros Hv Hs Hk Hp. rewrite encryptValue_unfold by done.
  unfold bind. rewrite validateSecretKey_validated by done.
  unfold internalEncrypt, bind, gets; simpl. by rewrite Hs.
Qed.

Lemma decryptValue_validated (st : state) (s c : string) :
  secretValidated (bot st) = true → secret (bot st) = VStr s →
  secretKey (bot st) ≠ "" → c ≠ "" →
  decryptValue (VStr c) st =
    match decipher s c with
    | Some p => (Ok (VStr p), st)
    | None => (Throw CryptoError, st)
    end.
Proof.
  intros Hv Hs Hk Hp. rewrite decryptValue_unfold by done.
  unfold bind. rewrite validateSecretKey_validated by done.
  unfold internalDecrypt, bind, gets; simpl. rewrite Hs.
  by destruct (decipher s c).
Qed.

(** *** The validated flag is never taken down *)

Lemma keeps_flag_ret {A} (a : A) : keeps_flag (ret a).
Proof. by intros st. Qed.

Lemma keeps_flag_throw {A} (e : error) : keeps_flag (@throw A e).
Proof. by intros st. Qed.

Lemma keeps_flag_gets {A} (f : state → A) : keeps_flag (gets f).
Proof. by intros st. Qed.

Lemma keeps_flag_modify (f : state → state) :
  (∀ st, secretValidated (bot (f st)) = secretValidated (bot st)) →
  keeps_flag (modify f).
Proof. intros Hf st Hst. simpl. by rewrite Hf. Qed.

Lemma keeps_flag_bind {A B} (m : M A) (k : A → M B) :
  keeps_flag m → (∀ a, keeps_flag (k a)) → keeps_flag (bind m k).
Proof.
  intros Hm Hk st Hst. unfold bind. specialize (Hm st Hst).
  destruct (m st) as [[a|e] st1]; [by apply Hk|done].
Qed.

Lemma keeps_flag_try_catch {A} (m h : M A) :
  keeps_flag m → keeps_flag h → keeps_flag (try_catch m h).
Proof.
  intros Hm Hh st Hst. unfold try_catch. specialize (Hm st Hst).
  destruct (m st) as [[a|e] st1]; [done|by apply Hh].
Qed.

Lemma keeps_flag_for_of {A} (xs : list A) (body : A → M unit) :
  (∀ x, keeps_flag (body x)) → keeps_flag (for_of xs body).
Proof.
  intros Hbody. induction xs as [|x xs IH]; simpl.
  - apply keeps_flag_ret.
  - apply keeps_flag_bind; auto.
Qed.

Create HintDb flag discriminated.

#[local] Hint Resolve keeps_flag_ret keeps_flag_throw keeps_flag_gets
  keeps_flag_try_catch keeps_flag_for_of : flag.

(** Peel a method body down to its primitive steps. *)
Ltac keeps_flag_step :=
  match goal with
  | |- keeps_flag (bind _ _) => apply keeps_flag_bind; [|intros ?]
  | |- keeps_flag (modify _) => apply keeps_flag_modify; by intros ?
  | |- keeps_flag (match ?x with _ => _ end) => destruct x
  | |- keeps_flag _ => solve [eauto with flag]
  end.

Lemma keeps_flag_validateSecretKey : keeps_flag validateSecretKey.
Proof. intros st Hst. by rewrite validateSecretKey_validated. Qed.

Lemma keeps_flag_internalEncrypt (v : string) : keeps_flag (internalEncrypt v).
Proof. unfold internalEncrypt. repeat keeps_flag_step. Qed.

Lemma keeps_flag_internalDecrypt (c : string) : keeps_flag (internalDecrypt c).
Proof. unfold internalDecrypt. repeat keeps_flag_step. Qed.

#[local] Hint Resolve keeps_flag_validateSecretKey keeps_flag_internalEncrypt
  keeps_flag_internalDecrypt : flag.

Lemma keeps_flag_encryptValue (v : value) : keeps_flag (encryptValue v).
Proof. unfold encryptValue. repeat keeps_flag_step. Qed.

Lemma keeps_flag_decryptValue (v : value) : keeps_flag (decryptValue v).
Proof. unfold decryptValue. repeat keeps_flag_step. Qed.

Lemma keeps_flag_transform_props (f : value → M value) (l : loc)
    (props : list string) :
  (∀ v, keeps_flag (f v)) → keeps_flag (transform_props f l props).
Proof.
  intros Hf. induction props as [|prop rest IH]; simpl.
  - apply keeps_flag_ret.
  - unfold write_prop. repeat keeps_flag_step.
Qed.

#[local] Hint Resolve keeps_flag_encryptValue keeps_flag_decryptValue
  keeps_flag_transform_props : flag.

Lemma keeps_flag_encryptService (l : loc) : keeps_flag (encryptService l).
Proof. unfold encryptService. repeat keeps_flag_step. Qed.

Lemma keeps_flag_decryptService (l : loc) : keeps_flag (decryptService l).
Proof. unfold decryptService. repeat keeps_flag_step. Qed.

#[local] Hint Resolve keeps_flag_encryptService keeps_flag_decryptService
  : flag.

Lemma keeps_flag_encryptAll : keeps_flag encryptAll.
Proof.
  unfold encryptAll. keeps_flag_step; [keeps_flag_step|].
  apply keeps_flag_for_of. intros l. repeat keeps_flag_step.
Qed.

Lemma keeps_flag_decryptAll : keeps_flag decryptAll.
Proof.
  unfold decryptAll. keeps_flag_step; [keeps_flag_step|].
  apply keeps_flag_for_of. intros l. repeat keeps_flag_step.
Qed.

#[local] Hint Resolve keeps_flag_encryptAll keeps_flag_decryptAll : flag.

Lemma keeps_flag_run_call (c : call) : keeps_flag (run_call c).
Proof.
  destruct c; simpl; try solve [repeat keeps_flag_step].
  - unfold Save, writeJson. repeat keeps_flag_step.
  - unfold clearSecret. repeat keeps_flag_step.
  - unfold connectService, write_name. repeat keeps_flag_step.
  - unfold disconnectService. repeat keeps_flag_step.
  - unfold disconnectServiceByNameOrId. repeat keeps_flag_step.
Qed.

Lemma run_calls_validated (cs : list call) (st : state) :
  secretValidated (bot st) = true →
  secretValidated (bot (run_calls cs st)) = true.
Proof.
  revert st. induction cs as [|c cs IH]; intros st Hst; [done|].
  simpl. apply IH. by apply keeps_flag_run_call.
Qed.

(** C4.  On a store with an empty verifier and a non-empty secret, the
    first call of validateSecretKey returns normally, takes a fresh
    token from the generator, stores its ciphertext under the secret as
    the (non-empty) verifier and sets the validated flag; from then on,
    whatever methods are called on the store in between, a call of
    validateSecretKey returns at once without error and leaves the
    store as it is. *)
Theorem validateSecretKey_first_call (st : state) (s : string) :
  secretKey (bot st) = "" →
  secret (bot st) = VStr s → s ≠ "" →
  secretValidated (bot st) = false →
  ∃ st',
    validateSecretKey st = (Ok tt, st')
    ∧ secretKey (bot st') = cipher s (uuid (uuids st))
    ∧ uuids st' = S (uuids st)
    ∧ secretKey (bot st') ≠ ""
    ∧ secretValidated (bot st') = true
    ∧ (∀ cs, validateSecretKey (run_calls cs st')
             = (Ok tt, run_calls cs st')).
Proof.
  intros Hk Hs Hne Hv.
  eexists. split; [by apply validateSecretKey_bootstrap|]. simpl.
  repeat split; auto.
  intros cs. apply validateSecretKey_validated. by apply run_calls_validated.
Qed.

(** C9.  Deciphering what encryptValue produced, in the store it left,
    gives the plaintext back; with a secret that validates, encryptValue
    does produce a result for every plaintext; the empty string passes
    through both operations unchanged. *)
Theorem decryptValue_encryptValue (st st1 : state) (s p : string) :
  secret (bot st) = VStr s →
  validateSecretKey st = (Ok tt, st1) →
  (∃ c, encryptValue (VStr p) st1 = (Ok (VStr c), st1)
        ∧ decryptValue (VStr c) st1 = (Ok (VStr p), st1))
  ∧ (∀ v c st', encryptValue v st = (Ok c, st') →
                decryptValue c st' = (Ok v, st'))
  ∧ encryptValue (VStr "") st = (Ok (VStr ""), st)
  ∧ decryptValue (VStr "") st = (Ok (VStr ""), st).
Proof.
  intros Hs Hval.
  assert (∀ st0 v c st', encryptValue v st0 = (Ok c, st') →
            decryptValue c st' = (Ok v, st')) as Hround.
  { clear Hs Hval. intros st0 v c st' Henc.
    destruct (decide (is_empty v = true ∨ secretKey (bot st0) = ""))
      as [Hpass|Hpass].
    { rewrite encryptValue_passthrough in Henc by done.
      inversion Henc; subst. by apply decryptValue_passthrough. }
    apply Decidable.not_or in Hpass as [Hv Hk].
    destruct v as [|q]; [done|].
    rewrite is_empty_VStr in Hv.
    assert (q ≠ "") as Hq by (intros ->; by apply Hv).
    rewrite encryptValue_unfold in Henc by done.
    unfold bind in Henc.
    destruct (validateSecretKey st0) as [[[]|e] st2] eqn:Hv2; [|done].
    pose proof (validateSecretKey_Ok _ _ Hv2) as Hflag.
    apply validateSecretKey_frame in Hv2 as (Hsec & _ & _ & _ & Hbot & _).
    assert (secretKey (bot st2) = secretKey (bot st0)) as Hk2.
    { destruct (Hbot Hk) as [-> | ->]; reflexivity. }
    unfold internalEncrypt, bind, gets in Henc; simpl in Henc.
    destruct (secret (bot st2)) as [|s2] eqn:Hs2; [done|].
    inversion Henc; subst.
    rewrite (decryptValue_validated _ s2);
      [by rewrite decipher_cipher|done|done|congruence|apply cipher_nonempty]. }
  split; [|split; [apply Hround|]].
  - pose proof (validateSecretKey_Ok _ _ Hval) as Hflag.
    apply validateSecretKey_frame in Hval as (Hsec & _).
    rewrite Hs in Hsec.
    destruct (decide (p = "" ∨ secretKey (bot st1) = "")) as [Hpass|Hpass].
    + exists p.
      assert (is_empty (VStr p) = true ∨ secretKey (bot st1) = "").
      { destruct Hpass as [->|]; auto. }
      by rewrite encryptValue_passthrough, decryptValue_passthrough.
    + apply Decidable.not_or in Hpass as [Hp Hk].
      exists (cipher s p).
      rewrite (encryptValue_validated _ s), (decryptValue_validated _ s)
        by auto.
      by rewrite decipher_cipher.
  - split; [by apply encryptValue_passthrough; left
           |by apply decryptValue_passthrough; left].
Qed.

(** C1 (as the code has it).  clearSecret runs validateSecretKey and
    fails with its error when that fails; otherwise it empties the
    verifier and leaves the secret as supplied.  On the store it leaves,
    encryptValue and decryptValue raise nothing: they return their
    argument unchanged, as they do on a fresh store built without a
    secret. *)
Theorem clearSecret_then_plaintext (st : state) :
  (∀ e st1, validateSecretKey st = (Throw e, st1) →
            clearSecret st = (Throw e, st1))
  ∧ (∀ st', clearSecret st = (Ok tt, st') →
       (∃ st1, validateSecretKey st = (Ok tt, st1)
               ∧ st' = with_bot (with_secretKey "" (bot st1)) st1)
       ∧ secretKey (bot st') = ""
       ∧ secret (bot st') = secret (bot st)
       ∧ ∀ v, encryptValue v st' = (Ok v, st')
              ∧ decryptValue v st' = (Ok v, st'))
  ∧ (∀ v h d n,
       encryptValue v (mkState (newBotConfig VUndef) h d n)
         = (Ok v, mkState (newBotConfig VUndef) h d n)
       ∧ decryptValue v (mkState (newBotConfig VUndef) h d n)
         = (Ok v, mkState (newBotConfig VUndef) h d n)).
Proof.
  split; [|split].
  - intros e st1 H. unfold clearSecret, bind. by rewrite H.
  - intros st' H. unfold clearSecret, bind, modify in H.
    destruct (validateSecretKey st) as [[[]|e] st1] eqn:Hv; [|done].
    inversion H; subst; clear H.
    apply validateSecretKey_frame in Hv as Hfr.
    destruct Hfr as (Hsec & _).
    split; [by exists st1|]. simpl.
    split; [done|]. split; [done|]. intros v.
    split; [apply encryptValue_passthrough|apply decryptValue_passthrough];
      by right.
  - intros v h d n.
    split; [apply encryptValue_passthrough|apply decryptValue_passthrough];
      by right.
Qed.

(** ** linq queries *)

Lemma any_where {A} (p : A → bool) (l : list A) :
  any (where_ p l) = true ↔ ∃ x, x ∈ l ∧ p x = true.
Proof.
  unfold where_. split.
  - destruct (List.filter p l) as [|x l'] eqn:Hf; [done|]. intros _.
    assert (In x (List.filter p l)) as Hin by (rewrite Hf; by left).
    apply filter_In in Hin as [Hin Hp]. exists x.
    by rewrite list_elem_of_In.
  - intros (x & Hin & Hp).
    assert (In x (List.filter p l)) as Hx.
    { apply filter_In. by rewrite <- list_elem_of_In. }
    by destruct (List.filter p l).
Qed.

Lemma any_where_false {A} (p : A → bool) (l : list A) :
  any (where_ p l) = false ↔ ∀ x, x ∈ l → p x = false.
Proof.
  split.
  - intros Hany x Hin. destruct (p x) eqn:Hp; [|done].
    assert (any (where_ p l) = true) by (apply any_where; eauto). congruence.
  - intros Hall. destruct (any (where_ p l)) eqn:Hany; [|done].
    apply any_where in Hany as (x & Hin & Hp). rewrite Hall in Hp; done.
Qed.

Lemma any_where_where {A} (p q : A → bool) (l : list A) :
  any (where_ q (where_ p l)) = true ↔ ∃ x, x ∈ l ∧ p x = true ∧ q x = true.
Proof.
  rewrite any_where. split.
  - intros (x & Hin & Hq). exists x.
    apply list_elem_of_In, filter_In in Hin as [Hin Hp].
    by rewrite list_elem_of_In.
  - intros (x & Hin & Hp & Hq). exists x. split; [|done].
    apply list_elem_of_In, filter_In. by rewrite <- list_elem_of_In.
Qed.

(** ** Names tried by connectService *)

Lemma app_inj_r (s t u : string) : s +:+ u = t +:+ u → s = t.
Proof.
  revert t. induction s as [|a s IH]; intros [|b t] H.
  - reflexivity.
  - apply (f_equal String.length) in H.
    rewrite app_cons, app_empty_l in H. simpl in H.
    rewrite length_app_string in H. lia.
  - apply (f_equal String.length) in H.
    rewrite app_cons, app_empty_l in H. simpl in H.
    rewrite length_app_string in H. lia.
  - rewrite !app_cons in H. inversion H; subst. f_equal. by apply IH.
Qed.

Lemma nth_name_1 (base : string) : nth_name base 1 = base.
Proof. reflexivity. Qed.

Lemma nth_name_suffix (base : string) (n : nat) :
  2 ≤ n → nth_name base n = base +:+ " (" +:+ pretty n +:+ ")".
Proof.
  intros Hn. unfold nth_name, candidate_name.
  destruct (Nat.ltb_spec 1 n); [done|lia].
Qed.

Lemma candidate_name_nth (base : string) (n : nat) (current : string) :
  (n ≤ 1 → current = base) →
  candidate_name base n current = nth_name base n.
Proof.
  intros Hc. unfold nth_name, candidate_name.
  destruct (Nat.ltb_spec 1 n); [done|auto].
Qed.

Lemma nth_name_inj (base : string) (n m : nat) :
  1 ≤ n → 1 ≤ m → nth_name base n = nth_name base m → n = m.
Proof.
  intros Hn Hm H.
  assert (∀ k, 2 ≤ k → nth_name base k ≠ base) as Hneq.
  { intros k Hk Heq. rewrite nth_name_suffix in Heq by done.
    apply (f_equal String.length) in Heq.
    rewrite length_app_string, app_cons in Heq. simpl in Heq. lia. }
  destruct (decide (n = 1)) as [->|]; destruct (decide (m = 1)) as [->|];
    try done.
  - rewrite nth_name_1 in H. symmetry in H. by apply Hneq in H; [|lia].
  - rewrite nth_name_1 in H. by apply Hneq in H; [|lia].
  - rewrite !nth_name_suffix in H by lia.
    apply String.app_inj, String.app_inj, app_inj_r in H.
    by apply (inj pretty).
Qed.

Lemma taken_names_spec (h : loc → service) (svcs : list loc) (n : string) :
  any (where_ (λ s, String.eqb (s_name (h s)) n) svcs) = true
  ↔ n ∈ taken_names h svcs.
Proof.
  rewrite any_where. unfold taken_names. rewrite list_elem_of_fmap.
  split.
  - intros (x & Hin & Heq). apply String.eqb_eq in Heq. eauto.
  - intros (x & -> & Hin). exists x. by rewrite String.eqb_refl.
Qed.

Lemma unique_name_Some (h : loc → service) (svcs : list loc) (base : string)
    (fuel n : nat) (current r : string) :
  (n ≤ 1 → current = base) →
  unique_name fuel h svcs base n current = Some r →
  ∃ m, n ≤ m ∧ r = nth_name base m
       ∧ (nth_name base m ∉ taken_names h svcs)
       ∧ (∀ k, n ≤ k < m → nth_name base k ∈ taken_names h svcs).
Proof.
  revert n current. induction fuel as [|fuel IH]; intros n current Hc H;
    [done|]. simpl in H.
  rewrite candidate_name_nth in H by done.
  destruct (any _) eqn:Hany; simpl in H.
  - apply IH in H as (m & Hm & -> & Hfree & Hbelow).
    2:{ intros Hle. assert (n = 0) as -> by lia. reflexivity. }
    exists m. repeat split; [lia|done|]. intros k Hk.
    destruct (decide (k = n)) as [->|]; [|apply Hbelow; lia].
    by apply taken_names_spec.
  - inversion H; subst. exists n. repeat split; [lia| |intros; lia].
    rewrite <- taken_names_spec. by rewrite Hany.
Qed.

Lemma unique_name_None (h : loc → service) (svcs : list loc) (base : string)
    (fuel n : nat) (current : string) :
  (n ≤ 1 → current = base) →
  unique_name fuel h svcs base n current = None →
  ∀ k, n ≤ k < n + fuel → nth_name base k ∈ taken_names h svcs.
Proof.
  revert n current. induction fuel as [|fuel IH]; intros n current Hc H k Hk;
    [lia|]. simpl in H.
  rewrite candidate_name_nth in H by done.
  destruct (any _) eqn:Hany; simpl in H; [|done].
  destruct (decide (k = n)) as [->|]; [by apply taken_names_spec|].
  apply (IH (S n) _) with (k := k) in H; [done| |lia].
  intros Hle. assert (n = 0) as -> by lia. reflexivity.
Qed.

(** The naming loop ends within [length svcs + 1] turns: the names it
    tries are pairwise different, so they cannot all be taken. *)
Lemma unique_name_terminates (h : loc → service) (svcs : list loc)
    (base : string) :
  is_Some (unique_name (S (length svcs)) h svcs base 1 base).
Proof.
  destruct (unique_name _ _ _ _ _ _) eqn:H; [done|exfalso].
  pose proof (unique_name_None _ _ _ _ _ _ (λ _, eq_refl) H) as Hall.
  assert ((nth_name base <$> seq 1 (S (length svcs))) ⊆+ taken_names h svcs)
    as Hsub.
  { apply NoDup_submseteq.
    - apply NoDup_fmap_2_strong; [|apply NoDup_seq].
      intros x y Hx%elem_of_seq Hy%elem_of_seq.
      apply nth_name_inj; lia.
    - intros x (k & -> & Hk%elem_of_seq)%list_elem_of_fmap.
      apply Hall. lia. }
  apply submseteq_length in Hsub.
  unfold taken_names in Hsub. rewrite !length_fmap, length_seq in Hsub. lia.
Qed.

(** ** connectService *)

Lemma duplicate_check (h : loc → service) (svcs : list loc) (l : loc) :
  any (where_ (λ s, String.eqb (s_id (h s)) (s_id (h l)))
         (where_ (λ s, bool_decide (s_type (h s) = s_type (h l))) svcs)) = true
  ↔ ∃ s, s ∈ svcs ∧ same_type_id h l s.
Proof.
  rewrite any_where_where. unfold same_type_id.
  split; intros (s & Hin & Ht & Hi); exists s.
  - apply bool_decide_eq_true in Ht. by apply String.eqb_eq in Hi.
  - rewrite bool_decide_eq_true, String.eqb_eq. done.
Qed.

Lemma connectService_dup (st : state) (l s : loc) :
  s ∈ services (bot st) → same_type_id (heap st) l s →
  connectService l st = (Throw (AlreadyConnected (s_id (heap st l))), st).
Proof.
  intros Hin Hsame. unfold connectService, bind, gets; simpl.
  assert (any (where_ (λ s, String.eqb (s_id (heap st s)) (s_id (heap st l)))
            (where_ (λ s, bool_decide (s_type (heap st s) = s_type (heap st l)))
               (services (bot st)))) = true) as ->; [|done].
  apply duplicate_check. eauto.
Qed.

Lemma connectService_fresh (st : state) (l : loc) :
  (∀ s, s ∈ services (bot st) → ¬ same_type_id (heap st) l s) →
  ∃ n, 1 ≤ n
    ∧ connectService l st
      = (Ok tt, connected l (nth_name (s_name (heap st l)) n) st)
    ∧ (nth_name (s_name (heap st l)) n
         ∉ taken_names (heap st) (services (bot st)))
    ∧ (∀ k, 1 ≤ k < n →
         nth_name (s_name (heap st l)) k
           ∈ taken_names (heap st) (services (bot st))).
Proof.
  intros Hfresh. unfold connectService, bind, gets; cbv beta iota.
  destruct (any _) eqn:Hdup.
  { apply duplicate_check in Hdup as (s & Hin & Hs). by destruct (Hfresh s). }
  destruct (unique_name_terminates (heap st) (services (bot st))
              (s_name (heap st l))) as [r Hr].
  rewrite Hr.
  apply unique_name_Some in Hr as (n & Hn & -> & Hfree & Hbelow); [|done].
  exists n. done.
Qed.

(** C5.  When a service already in the list has the type and the id of
    the descriptor handed to connectService, the call fails with the
    "already connected" error, whatever the names are, and the store
    (services list included) is left as it was.  In particular, after a
    descriptor has been connected, connecting any descriptor of the same
    type and id fails in this way. *)
Theorem connectService_duplicate (st : state) (newService s : loc) :
  s_type (heap st s) = s_type (heap st newService) →
  s_id (heap st s) = s_id (heap st newService) →
  (s ∈ services (bot st) →
   connectService newService st
     = (Throw (AlreadyConnected (s_id (heap st newService))), st))
  ∧ (∀ st1, connectService s st = (Ok tt, st1) →
       connectService newService st1
         = (Throw (AlreadyConnected (s_id (heap st newService))), st1)).
Proof.
  intros Ht Hi. split.
  { intros Hin. by apply (connectService_dup st newService s). }
  intros st1 Hrun.
  destruct (decide (Exists (same_type_id (heap st) s) (services (bot st))))
    as [Hdup|Hfresh].
  { apply Exists_exists in Hdup as (x & Hin & Hx).
    by rewrite (connectService_dup st s x) in Hrun. }
  rewrite Exists_exists in Hfresh.
  destruct (connectService_fresh st s) as (n & _ & Hrun' & _).
  { intros x Hin Hx. apply Hfresh. by exists x. }
  rewrite Hrun' in Hrun. inversion Hrun; subst; clear Hrun.
  set (st1 := connected s _ st).
  assert (s_id (heap st1 newService) = s_id (heap st newService)
          ∧ s_type (heap st1 newService) = s_type (heap st newService))
    as [Hi1 Ht1].
  { unfold st1; simpl. destruct (decide (s = newService)) as [->|Hne].
    - by rewrite fn_lookup_insert.
    - by rewrite fn_lookup_insert_ne. }
  rewrite <- Hi1. apply (connectService_dup st1 newService s).
  - unfold st1; simpl. apply elem_of_app. right. by left.
  - unfold same_type_id. rewrite Hi1, Ht1.
    unfold st1; simpl. by rewrite fn_lookup_insert.
Qed.

(** C6.  When no service in the list has the type and id of the new
    one, connectService succeeds and stores it under the first free
    name of the sequence  base, "base (2)", "base (3)", ...: a free base
    name is kept, otherwise the least count n ≥ 2 with "base (n)" free
    is used. *)
Theorem connectService_name (st : state) (newService : loc) :
  (∀ s, s ∈ services (bot st) → ¬ same_type_id (heap st) newService s) →
  let base := s_name (heap st newService) in
  let taken := taken_names (heap st) (services (bot st)) in
  ∃ n st',
    connectService newService st = (Ok tt, st')
    ∧ services (bot st') = services (bot st) ++ [newService]
    ∧ s_name (heap st' newService) = nth_name base n
    ∧ 1 ≤ n
    ∧ (nth_name base n ∉ taken)
    ∧ (∀ k, 1 ≤ k < n → nth_name base k ∈ taken)
    ∧ nth_name base 1 = base
    ∧ (∀ k, 2 ≤ k → nth_name base k = base +:+ " (" +:+ pretty k +:+ ")")
    ∧ (base ∉ taken → s_name (heap st' newService) = base).
Proof.
  intros Hfresh base taken.
  destruct (connectService_fresh st newService Hfresh)
    as (n & Hn & Hrun & Hfree & Hbelow).
  exists n, (connected newService (nth_name base n) st).
  split; [done|]. split; [done|]. simpl. rewrite fn_lookup_insert. simpl.
  repeat split; auto using nth_name_suffix.
  intros Hbase. destruct (decide (n = 1)) as [->|]; [done|].
  destruct Hbase. rewrite <- (nth_name_1 base). apply Hbelow. lia.
Qed.

(** C10.  A successful connectService writes into the object it was
    handed: the reference appended to the services list is the
    caller's, and that object now carries the assigned name, which is
    none of the names taken before; so when the name it came with was
    taken, the caller's object has been renamed.  Nothing else of the
    object, and no other object, is changed. *)
Theorem connectService_renames_argument (st st' : state) (newService : loc) :
  connectService newService st = (Ok tt, st') →
  let taken := taken_names (heap st) (services (bot st)) in
  services (bot st') = services (bot st) ++ [newService]
  ∧ last (services (bot st')) = Some newService
  ∧ (s_name (heap st' newService) ∉ taken)
  ∧ (s_name (heap st newService) ∈ taken →
       s_name (heap st' newService) ≠ s_name (heap st newService))
  ∧ heap st' newService
      = set_name (heap st newService) (s_name (heap st' newService))
  ∧ (∀ l, l ≠ newService → heap st' l = heap st l).
Proof.
  intros Hrun taken.
  destruct (decide (Exists (same_type_id (heap st) newService)
                      (services (bot st)))) as [Hdup|Hfresh].
  { apply Exists_exists in Hdup as (s & Hin & Hs).
    by rewrite (connectService_dup st newService s) in Hrun. }
  rewrite Exists_exists in Hfresh.
  destruct (connectService_fresh st newService)
    as (n & Hn & Hrun' & Hfree & Hbelow).
  { intros s Hin Hs. apply Hfresh. by exists s. }
  rewrite Hrun' in Hrun. inversion Hrun; subst; clear Hrun.
  simpl. rewrite fn_lookup_insert. simpl.
  repeat split; auto.
  - by rewrite last_snoc.
  - intros Htaken Heq. apply Hfree. by rewrite Heq.
  - intros l Hl. by rewrite fn_lookup_insert_ne.
Qed.

(** ** The disconnect methods *)

Lemma remove_first_miss (p : loc → bool) (svs : list loc) (n i : nat) :
  (∀ x, x ∈ svs → p x = false) → remove_first p svs i n = None.
Proof.
  intros Hall. revert i. induction n as [|n IH]; intros i; [done|]. simpl.
  destruct (svs !! i) as [x|] eqn:Hx; [|done].
  rewrite (Hall x) by (by eapply list_elem_of_lookup_2). apply IH.
Qed.

Lemma remove_first_hit (p : loc → bool) (svs : list loc) (j : nat) (x : loc)
    (n i : nat) :
  svs !! j = Some x → p x = true →
  (∀ k y, i ≤ k < j → svs !! k = Some y → p y = false) →
  i ≤ j < i + n →
  remove_first p svs i n = Some (delete j svs).
Proof.
  intros Hx Hp. revert i. induction n as [|n IH]; intros i Hbefore Hj; [lia|].
  simpl. destruct (decide (i = j)) as [->|Hne].
  - by rewrite Hx, Hp.
  - destruct (lookup_lt_is_Some_2 svs i) as [y Hy].
    { apply lookup_lt_Some in Hx. lia. }
    rewrite Hy, (Hbefore i y) by (done || lia).
    apply IH; [|lia]. intros k z Hk. apply Hbefore. lia.
Qed.

(** On a list split at its first hit, the loop removes exactly that
    element. *)
Lemma remove_first_split (p : loc → bool) (pre post : list loc) (x : loc) :
  (∀ y, y ∈ pre → p y = false) → p x = true →
  remove_first p (pre ++ x :: post) 0 (length (pre ++ x :: post))
    = Some (pre ++ post).
Proof.
  intros Hpre Hx.
  rewrite (remove_first_hit p _ (length pre) x); [by rewrite delete_middle|..].
  - by rewrite list_lookup_middle.
  - done.
  - intros k y Hk Hy. apply Hpre.
    rewrite lookup_app_l in Hy by lia. by eapply list_elem_of_lookup_2.
  - rewrite length_app. simpl. lia.
Qed.

(** C7.  disconnectService never raises.  It removes the first service
    of the list that has both the given type and the given id and keeps
    the others in order; when no service has both, the store is left
    exactly as it was. *)
Theorem disconnectService_first_match (st : state) (type : ServiceType)
    (id : string) :
  let hit := λ s, s_type (heap st s) = type ∧ s_id (heap st s) = id in
  (∀ pre s post,
     services (bot st) = pre ++ s :: post →
     (∀ x, x ∈ pre → ¬ hit x) → hit s →
     disconnectService type id st
       = (Ok tt, with_bot (with_services (pre ++ post) (bot st)) st))
  ∧ ((∀ x, x ∈ services (bot st) → ¬ hit x) →
     disconnectService type id st = (Ok tt, st))
  ∧ fst (disconnectService type id st) = Ok tt.
Proof.
  intros hit.
  set (p := λ s, bool_decide (s_type (heap st s) = type)
                 && String.eqb (s_id (heap st s)) id).
  assert (∀ s, p s = true ↔ hit s) as Hp.
  { intros s. unfold p, hit.
    by rewrite andb_true_iff, bool_decide_eq_true, String.eqb_eq. }
  assert (∀ s, ¬ hit s → p s = false) as Hnp.
  { intros s Hs. destruct (p s) eqn:E; [|done]. by apply Hp in E. }
  split; [|split].
  - intros pre s post Hsplit Hpre Hs.
    unfold disconnectService, bind, gets; cbv beta iota zeta. fold p.
    rewrite Hsplit, remove_first_split; [done|by auto|by apply Hp].
  - intros Hnone.
    unfold disconnectService, bind, gets; cbv beta iota zeta. fold p.
    rewrite remove_first_miss; [done|by auto].
  - unfold disconnectService, bind, gets; cbv beta iota zeta.
    by destruct (remove_first _ _ _ _).
Qed.

(** C8.  disconnectServiceByNameOrId removes the first service of the
    list whose id or name is the token and keeps the others in order;
    when no service has the token as id or name, it fails with the
    "not found" error and the store is left exactly as it was. *)
Theorem disconnectServiceByNameOrId_first_match (st : state)
    (nameOrId : string) :
  let hit := λ s, s_id (heap st s) = nameOrId ∨ s_name (heap st s) = nameOrId in
  (∀ pre s post,
     services (bot st) = pre ++ s :: post →
     (∀ x, x ∈ pre → ¬ hit x) → hit s →
     disconnectServiceByNameOrId nameOrId st
       = (Ok tt, with_bot (with_services (pre ++ post) (bot st)) st))
  ∧ ((∀ x, x ∈ services (bot st) → ¬ hit x) →
     disconnectServiceByNameOrId nameOrId st
       = (Throw (ServiceNotFound nameOrId), st)).
Proof.
  intros hit.
  set (p := λ s, String.eqb (s_id (heap st s)) nameOrId
                 || String.eqb (s_name (heap st s)) nameOrId).
  assert (∀ s, p s = true ↔ hit s) as Hp.
  { intros s. unfold p, hit. by rewrite orb_true_iff, !String.eqb_eq. }
  assert (∀ s, ¬ hit s → p s = false) as Hnp.
  { intros s Hs. destruct (p s) eqn:E; [|done]. by apply Hp in E. }
  split.
  - intros pre s post Hsplit Hpre Hs.
    unfold disconnectServiceByNameOrId, bind, gets; cbv beta iota zeta. fold p.
    rewrite Hsplit, remove_first_split; [done|by auto|by apply Hp].
  - intros Hnone.
    unfold disconnectServiceByNameOrId, bind, gets; cbv beta iota zeta. fold p.
    rewrite remove_first_miss; [done|by auto].
Qed.

(** ** Encrypting and decrypting through an accepted secret *)

Lemma same_store_refl (st : state) : same_store st st.
Proof. unfold same_store. auto. Qed.

Lemma same_store_trans (st1 st2 st3 : state) :
  same_store st1 st2 → same_store st2 st3 → same_store st1 st3.
Proof.
  intros (Hd1 & Hu1 & Hb1) (Hd2 & Hu2 & Hb2).
  repeat split; [congruence..|].
  destruct Hb1 as [Hb1|Hb1], Hb2 as [Hb2|Hb2]; rewrite Hb2, Hb1; auto.
Qed.

Lemma same_store_heap (st : state) (h : loc → service) :
  same_store st (with_heap h st).
Proof. unfold same_store; simpl. auto. Qed.

Lemma accepts_same_store (s : string) (st st' : state) :
  accepts s st → same_store st st' → accepts s st'.
Proof.
  intros (Hs & Hk & Hv) (_ & _ & [Hb|Hb]); unfold accepts; rewrite Hb; simpl;
    auto.
Qed.

Lemma validateSecretKey_accepts (s : string) (st : state) :
  accepts s st →
  ∃ st', validateSecretKey st = (Ok tt, st')
         ∧ same_store st st' ∧ heap st' = heap st
         ∧ secretValidated (bot st') = true.
Proof.
  intros (Hs & Hk & [Hv|[Hne [x Hx]]]).
  { exists st. rewrite validateSecretKey_validated by done.
    auto using same_store_refl. }
  destruct (secretValidated (bot st)) eqn:Hv.
  { exists st. rewrite validateSecretKey_validated by done.
    auto using same_store_refl. }
  rewrite (validateSecretKey_check st s), Hx by done.
  eexists. split; [done|]. unfold same_store; simpl. auto.
Qed.

Lemma encryptValue_accepts (s : string) (st : state) (v : value) :
  accepts s st →
  ∃ st', encryptValue v st = (Ok (encrypt_pure s v), st')
         ∧ same_store st st' ∧ heap st' = heap st.
Proof.
  intros Hacc.
  destruct (is_empty v) eqn:Hv.
  { exists st. rewrite encryptValue_passthrough by auto.
    split; [|auto using same_store_refl].
    destruct v as [|p]; [done|]. simpl in *. by rewrite Hv. }
  destruct v as [|p]; [done|]. simpl in Hv. unfold encrypt_pure. rewrite Hv.
  rewrite length_eqb_zero in Hv. apply bool_decide_eq_false in Hv.
  pose proof Hacc as (Hs & Hk & _).
  rewrite encryptValue_unfold by done. unfold bind.
  destruct (validateSecretKey_accepts s st Hacc) as (st' & -> & Hsame & Hh & Hf).
  exists st'. unfold internalEncrypt, bind, gets, ret; simpl.
  destruct (accepts_same_store s st st' Hacc Hsame) as (Hs' & _).
  by rewrite Hs'.
Qed.

Lemma decryptValue_accepts (s : string) (st : state) (v : value) :
  accepts s st →
  ∃ st', decryptValue (encrypt_pure s v) st = (Ok v, st')
         ∧ same_store st st' ∧ heap st' = heap st.
Proof.
  intros Hacc.
  destruct (is_empty v) eqn:Hv.
  { exists st.
    assert (encrypt_pure s v = v) as ->.
    { destruct v as [|p]; [done|]. simpl in *. by rewrite Hv. }
    rewrite decryptValue_passthrough by auto. auto using same_store_refl. }
  destruct v as [|p]; [done|]. simpl in Hv. unfold encrypt_pure. rewrite Hv.
  pose proof Hacc as (Hs & Hk & _).
  rewrite decryptValue_unfold by (done || apply cipher_nonempty). unfold bind.
  destruct (validateSecretKey_accepts s st Hacc) as (st' & -> & Hsame & Hh & Hf).
  exists st'. unfold internalDecrypt, bind, gets, ret; simpl.
  destruct (accepts_same_store s st st' Hacc Hsame) as (Hs' & _).
  by rewrite Hs', decipher_cipher.
Qed.

(** ** encryptService and decryptService *)

Lemma get_prop_set_prop (o : service) (k k' : string) (v : value) :
  get_prop (set_prop o k v) k' = if decide (k = k') then v else get_prop o k'.
Proof.
  unfold get_prop, set_prop; simpl. rewrite lookup_insert.
  by destruct (decide (k = k')).
Qed.

Lemma getEncryptedProperties_NoDup (t : ServiceType) :
  NoDup (getEncryptedProperties t).
Proof. destruct t; apply (bool_decide_unpack _); by vm_compute. Qed.

(** The loop over the sensitive properties, when the transformation
    [f] yields [tgt k] for the value found at each property [k]. *)
Lemma transform_props_run (s : string) (f : value → M value) (l : loc)
    (tgt : string → value) (props : list string) (st : state) :
  NoDup props → accepts s st →
  (∀ k st0, k ∈ props → accepts s st0 →
     ∃ st0', f (get_prop (heap st l) k) st0 = (Ok (tgt k), st0')
             ∧ same_store st0 st0' ∧ heap st0' = heap st0) →
  ∃ st', transform_props f l props st = (Ok tt, st')
    ∧ same_store st st'
    ∧ (∀ l', l' ≠ l → heap st' l' = heap st l')
    ∧ s_type (heap st' l) = s_type (heap st l)
    ∧ s_id (heap st' l) = s_id (heap st l)
    ∧ s_name (heap st' l) = s_name (heap st l)
    ∧ (∀ k, get_prop (heap st' l) k =
            if decide (k ∈ props) then tgt k else get_prop (heap st l) k).
Proof.
  intros Hnd. revert st.
  induction Hnd as [|k1 rest Hk1 Hnd IH]; intros st Hacc Hf.
  { exists st. simpl. repeat split; auto using same_store_refl. }
  destruct (Hf k1 st) as (st1 & Hrun & Hsame1 & Hheap1);
    [by left|done|].
  set (st2 := with_heap (<[l := set_prop (heap st1 l) k1 (tgt k1)]> (heap st1))
                st1).
  assert (same_store st st2) as Hsame2.
  { eapply same_store_trans; [done|apply same_store_heap]. }
  destruct (IH st2) as (st' & Hrest & Hsame & Hother & Ht & Hi & Hn & Hread).
  { by eapply accepts_same_store. }
  { intros k st0 Hk Hacc0.
    assert (get_prop (heap st2 l) k = get_prop (heap st l) k) as ->.
    { unfold st2; simpl. rewrite fn_lookup_insert, get_prop_set_prop, Hheap1.
      rewrite decide_False; [done|]. by intros ->. }
    apply Hf; [by right|done]. }
  exists st'. split.
  { simpl. unfold bind at 1. unfold gets at 1. unfold bind at 1.
    rewrite Hrun. unfold bind at 1. unfold write_prop, modify.
    by fold st2. }
  split; [by eapply same_store_trans|].
  unfold st2 in *; simpl in *. rewrite fn_lookup_insert in *.
  repeat split.
  - intros l' Hl'. rewrite Hother, fn_lookup_insert_ne, Hheap1; done.
  - by rewrite Ht, Hheap1.
  - by rewrite Hi, Hheap1.
  - by rewrite Hn, Hheap1.
  - intros k. rewrite Hread, get_prop_set_prop, Hheap1.
    destruct (decide (k1 = k)) as [->|Hne].
    + rewrite decide_False by done. by rewrite decide_True by left.
    + destruct (decide (k ∈ rest)) as [Hin|Hin].
      * by rewrite decide_True by (by right).
      * rewrite decide_False; [done|].
        intros [->|?]%elem_of_cons; done.
Qed.

Lemma layered_ext (s : string) (h0 h : loc → service) (cnt cnt' : loc → nat) :
  (∀ l, cnt l = cnt' l) → layered s h0 cnt h → layered s h0 cnt' h.
Proof. intros Heq Hl l. rewrite <- Heq. apply Hl. Qed.

Lemma layered_0 (s : string) (h : loc → service) : layered s h (λ _, 0) h.
Proof. intros l. repeat split. intros k. simpl. by case_decide. Qed.

Lemma layered_0_reads (s : string) (h0 h : loc → service) (l : loc) :
  layered s h0 (λ _, 0) h →
  s_type (h l) = s_type (h0 l) ∧ s_id (h l) = s_id (h0 l)
  ∧ s_name (h l) = s_name (h0 l)
  ∧ ∀ k, get_prop (h l) k = get_prop (h0 l) k.
Proof.
  intros Hl. destruct (Hl l) as (Ht & Hi & Hn & Hr).
  repeat split; try done. intros k. rewrite Hr. simpl. by case_decide.
Qed.

Lemma encryptService_layered (s : string) (h0 : loc → service)
    (cnt : loc → nat) (l : loc) (st : state) :
  accepts s st → layered s h0 cnt (heap st) →
  ∃ st', encryptService l st = (Ok l, st')
         ∧ same_store st st'
         ∧ layered s h0 (<[l := S (cnt l)]> cnt) (heap st').
Proof.
  intros Hacc Hlay.
  destruct (transform_props_run s encryptValue l
              (λ k, encrypt_pure s (get_prop (heap st l) k))
              (getEncryptedProperties (s_type (heap st l))) st)
    as (st' & Hrun & Hsame & Hother & Ht & Hi & Hn & Hread).
  { apply getEncryptedProperties_NoDup. }
  { done. }
  { intros k st0 _ Hacc0. by apply encryptValue_accepts. }
  exists st'. split.
  { unfold encryptService, bind, gets; cbv beta iota zeta. by rewrite Hrun. }
  split; [done|]. intros l'.
  destruct (Hlay l) as (Ht0 & Hi0 & Hn0 & Hr0).
  destruct (decide (l' = l)) as [->|Hne].
  - rewrite fn_lookup_insert, Ht, Hi, Hn. repeat split; try done.
    intros k. rewrite Hread, Ht0, Hr0. by case_decide.
  - rewrite fn_lookup_insert_ne, Hother by done. apply Hlay.
Qed.

Lemma decryptService_layered (s : string) (h0 : loc → service)
    (cnt : loc → nat) (l : loc) (n : nat) (st : state) :
  accepts s st → cnt l = S n → layered s h0 cnt (heap st) →
  ∃ st', decryptService l st = (Ok l, st')
         ∧ same_store st st'
         ∧ layered s h0 (<[l := n]> cnt) (heap st').
Proof.
  intros Hacc Hcnt Hlay.
  destruct (Hlay l) as (Ht0 & Hi0 & Hn0 & Hr0).
  destruct (transform_props_run s decryptValue l
              (λ k, Nat.iter n (encrypt_pure s) (get_prop (h0 l) k))
              (getEncryptedProperties (s_type (heap st l))) st)
    as (st' & Hrun & Hsame & Hother & Ht & Hi & Hn & Hread).
  { apply getEncryptedProperties_NoDup. }
  { done. }
  { intros k st0 Hk Hacc0. rewrite Hr0, <- Ht0, decide_True, Hcnt by done.
    simpl. by apply decryptValue_accepts. }
  exists st'. split.
  { unfold decryptService, bind, gets; cbv beta iota zeta. by rewrite Hrun. }
  split; [done|]. intros l'.
  destruct (decide (l' = l)) as [->|Hne].
  - rewrite fn_lookup_insert, Ht, Hi, Hn. repeat split; try done.
    intros k. rewrite Hread, Ht0, Hr0. by case_decide.
  - rewrite fn_lookup_insert_ne, Hother by done. apply Hlay.
Qed.

(** ** encryptAll, decryptAll and Save *)

Lemma for_encrypt_layered (s : string) (h0 : loc → service)
    (svcs : list loc) (cnt : loc → nat) (st : state) :
  accepts s st → layered s h0 cnt (heap st) →
  ∃ st', for_of svcs (λ l, encryptService l ;; ret tt) st = (Ok tt, st')
         ∧ same_store st st'
         ∧ layered s h0 (λ l, cnt l + count_occ Nat.eq_dec svcs l) (heap st').
Proof.
  revert cnt st. induction svcs as [|l0 rest IH]; intros cnt st Hacc Hlay.
  { exists st. split; [done|]. split; [apply same_store_refl|].
    eapply layered_ext; [|done]. intros l. simpl. lia. }
  destruct (encryptService_layered s h0 cnt l0 st Hacc Hlay)
    as (st1 & Hrun1 & Hsame1 & Hlay1).
  destruct (IH _ st1 (accepts_same_store _ _ _ Hacc Hsame1) Hlay1)
    as (st' & Hrun & Hsame & Hlay').
  exists st'. split.
  { simpl. unfold bind at 1. unfold bind at 1. by rewrite Hrun1. }
  split; [by eapply same_store_trans|].
  eapply layered_ext; [|done]. intros l. simpl.
  destruct (Nat.eq_dec l0 l) as [->|Hne].
  - rewrite fn_lookup_insert. lia.
  - by rewrite fn_lookup_insert_ne.
Qed.

Lemma for_decrypt_layered (s : string) (h0 : loc → service)
    (svcs : list loc) (cnt : loc → nat) (st : state) :
  accepts s st →
  layered s h0 (λ l, cnt l + count_occ Nat.eq_dec svcs l) (heap st) →
  ∃ st', for_of svcs (λ l, decryptService l ;; ret tt) st = (Ok tt, st')
         ∧ same_store st st'
         ∧ layered s h0 cnt (heap st').
Proof.
  revert st. induction svcs as [|l0 rest IH]; intros st Hacc Hlay.
  { exists st. split; [done|]. split; [apply same_store_refl|].
    eapply layered_ext; [|done]. intros l. simpl. lia. }
  destruct (decryptService_layered s h0
              (λ l, cnt l + count_occ Nat.eq_dec (l0 :: rest) l) l0
              (cnt l0 + count_occ Nat.eq_dec rest l0) st Hacc)
    as (st1 & Hrun1 & Hsame1 & Hlay1); [|done|].
  { simpl. destruct (Nat.eq_dec l0 l0); [lia|done]. }
  destruct (IH st1) as (st' & Hrun & Hsame & Hlay').
  { by eapply accepts_same_store. }
  { eapply layered_ext; [|done]. intros l. simpl.
    destruct (Nat.eq_dec l0 l) as [->|Hne].
    - by rewrite fn_lookup_insert.
    - rewrite fn_lookup_insert_ne by done. simpl.
      by destruct (Nat.eq_dec l0 l). }
  exists st'. split.
  { simpl. unfold bind at 1. unfold bind at 1. by rewrite Hrun1. }
  split; [by eapply same_store_trans|done].
Qed.

Lemma same_store_bot_json (st st' : state) (h : loc → service) :
  same_store st st' → bot_json (bot st') h = bot_json (bot st) h.
Proof. by intros (_ & _ & [-> | ->]). Qed.

Lemma same_store_fields (st st' : state) :
  same_store st st' →
  services (bot st') = services (bot st)
  ∧ location (bot st') = location (bot st)
  ∧ secretKey (bot st') = secretKey (bot st).
Proof. by intros (_ & _ & [-> | ->]). Qed.

(** C3 (as the code has it).  Save looks at the verifier [secretKey],
    not at the secret.  With an empty verifier it writes
    [{name, description, secretKey, services}] as they are to the path
    ([botpath], or the load location when [botpath] is empty or absent)
    and changes nothing else.  With a verifier and a secret the store
    accepts, it returns normally; the file holds the services with each
    sensitive property enciphered once per occurrence of the service in
    the list (once, when no object is listed twice), and afterwards
    every service reads as before the call. *)
Theorem Save_spec (st : state) (botpath : value) (p : string) :
  or_value botpath (location (bot st)) = VStr p → p ≠ "" →
  (secretKey (bot st) = "" →
     Save botpath st
       = (Ok tt, with_disk (<[p := bot_json (bot st) (heap st)]> (disk st)) st))
  ∧ (∀ s, accepts s st →
     ∃ st' h1,
       Save botpath st = (Ok tt, st')
       ∧ disk st' = <[p := bot_json (bot st) h1]> (disk st)
       ∧ layered s (heap st)
           (λ l, count_occ Nat.eq_dec (services (bot st)) l) h1
       ∧ (NoDup (services (bot st)) →
          ∀ l k, l ∈ services (bot st) →
                 k ∈ getEncryptedProperties (s_type (heap st l)) →
                 get_prop (h1 l) k = encrypt_pure s (get_prop (heap st l) k))
       ∧ (∀ l, s_type (heap st' l) = s_type (heap st l)
               ∧ s_id (heap st' l) = s_id (heap st l)
               ∧ s_name (heap st' l) = s_name (heap st l)
               ∧ ∀ k, get_prop (heap st' l) k = get_prop (heap st l) k)
       ∧ uuids st' = uuids st
       ∧ (bot st' = bot st ∨ bot st' = with_secretValidated true (bot st))).
Proof.
  intros Hpath Hp.
  assert (∀ st0 obj, or_value botpath (location (bot st0)) = VStr p →
            writeJson (or_value botpath (location (bot st0))) obj st0
              = (Ok tt, with_disk (<[p := obj]> (disk st0)) st0)) as Hwrite.
  { intros st0 obj ->. unfold writeJson.
    by rewrite length_eqb_zero, bool_decide_eq_false_2. }
  split.
  - intros Hk. unfold Save. unfold bind at 1. unfold gets at 1.
    rewrite length_ltb_zero, Hk. simpl negb. cbv iota.
    unfold bind at 1. unfold ret at 1. unfold bind at 1. unfold gets at 1.
    unfold bind at 1. by rewrite Hwrite.
  - intros s Hacc. pose proof Hacc as (_ & Hk & _).
    destruct (for_encrypt_layered s (heap st) (services (bot st)) (λ _, 0)
                st Hacc (layered_0 s (heap st)))
      as (st1 & Hrun1 & Hsame1 & Hlay1).
    simpl in Hlay1.
    destruct (same_store_fields _ _ Hsame1) as (Hsv1 & Hloc1 & _).
    pose proof (accepts_same_store _ _ _ Hacc Hsame1) as Hacc1.
    set (st2 := with_disk (<[p := bot_json (bot st1) (heap st1)]> (disk st1))
                  st1).
    destruct (for_decrypt_layered s (heap st) (services (bot st)) (λ _, 0) st2)
      as (st3 & Hrun3 & Hsame3 & Hlay3); [done..|].
    exists st3, (heap st1). split.
    { unfold Save. unfold bind at 1. unfold gets at 1.
      rewrite length_ltb_zero, bool_decide_eq_false_2 by done.
      simpl negb. cbv iota.
      unfold bind at 1. unfold encryptAll at 1. unfold bind at 1.
      unfold gets at 1. rewrite Hrun1.
      unfold bind at 1. unfold gets at 1. unfold bind at 1.
      rewrite Hwrite by (by rewrite Hloc1). fold st2.
      unfold decryptAll. unfold bind at 1. unfold gets at 1.
      change (bot st2) with (bot st1).
      by rewrite Hsv1, Hrun3. }
    destruct Hsame3 as (Hd3 & Hu3 & Hb3). destruct Hsame1 as (Hd1 & Hu1 & Hb1).
    split.
    { rewrite Hd3. unfold st2; simpl. rewrite Hd1.
      by rewrite (same_store_bot_json st st1). }
    split; [done|].
    split.
    { intros Hnd l k Hl Hk'. destruct (Hlay1 l) as (_ & _ & _ & ->).
      rewrite decide_True by done.
      apply NoDup_ListNoDup in Hnd.
      rewrite (proj1 (NoDup_count_occ' Nat.eq_dec _) Hnd l); [done|].
      by apply list_elem_of_In. }
    split; [intros l; by apply (layered_0_reads s)|].
    split; [by rewrite Hu3|].
    unfold st2 in Hb3; simpl in Hb3.
    destruct Hb3 as [-> | ->], Hb1 as [-> | ->]; auto.
Qed.

(** ** The property table of the bot-service type *)

Lemma encryptValue_heap (st st' : state) (v : value) (r : outcome value) :
  encryptValue v st = (r, st') → heap st' = heap st.
Proof.
  intros H.
  destruct (decide (is_empty v = true ∨ secretKey (bot st) = ""))
    as [Hpass|Hpass].
  { rewrite encryptValue_passthrough in H by done. by inversion H. }
  apply Decidable.not_or in Hpass as [Hv Hk].
  destruct v as [|q]; [done|]. rewrite is_empty_VStr in Hv.
  assert (q ≠ "") as Hq by (intros ->; by apply Hv).
  rewrite encryptValue_unfold in H by done. unfold bind in H.
  destruct (validateSecretKey st) as [[[]|e] st1] eqn:Hval.
  - apply validateSecretKey_frame in Hval as (_ & _ & Hh & _).
    unfold internalEncrypt, bind, gets, ret, throw in H; simpl in H.
    destruct (secret (bot st1)); inversion H; by subst.
  - apply validateSecretKey_frame in Hval as (_ & _ & Hh & _).
    inversion H; by subst.
Qed.

(** Whatever the store, encryptService leaves the [appPassword] of a
    bot-service object as it found it: the table names another
    property for that type. *)
Lemma encryptService_abs_appPassword (st st' : state) (l : loc)
    (r : outcome loc) :
  s_type (heap st l) = AzureBotService →
  encryptService l st = (r, st') →
  get_prop (heap st' l) "appPassword" = get_prop (heap st l) "appPassword".
Proof.
  intros Ht H. unfold encryptService in H.
  unfold bind at 1 in H. unfold gets at 1 in H. rewrite Ht in H.
  simpl in H. unfold bind at 1 in H. unfold bind at 1 in H.
  unfold gets at 1 in H. unfold bind at 1 in H.
  destruct (encryptValue _ st) as [[v|e] st1] eqn:Henc;
    apply encryptValue_heap in Henc.
  - unfold write_prop, modify, bind, ret in H. inversion H; subst; simpl.
    rewrite fn_lookup_insert, get_prop_set_prop, Henc. done.
  - inversion H; subst. by rewrite Henc.
Qed.

(** With an accepted secret, the [appPassword] of an endpoint object is
    enciphered by encryptService. *)
Lemma encryptService_endpoint_appPassword (st : state) (l : loc) (s : string) :
  s_type (heap st l) = Endpoint → accepts s st →
  ∃ st', encryptService l st = (Ok l, st')
         ∧ get_prop (heap st' l) "appPassword"
           = encrypt_pure s (get_prop (heap st l) "appPassword").
Proof.
  intros Ht Hacc.
  destruct (encryptService_layered s (heap st) (λ _, 0) l st Hacc
              (layered_0 s (heap st))) as (st' & Hrun & _ & Hlay).
  exists st'. split; [done|].
  destruct (Hlay l) as (_ & _ & _ & Hread).
  rewrite Hread, Ht, fn_lookup_insert.
  case_decide as Hin; [done|]. destruct Hin. by left.
Qed.

(** ** Relations kept by the methods *)

Section Preserves.

Context (R : relation state) `{!PreOrder R}.

Lemma preserves_ret {A} (a : A) : preserves R (ret a).
Proof. intros st. simpl. reflexivity. Qed.

Lemma preserves_throw {A} (e : error) : preserves R (@throw A e).
Proof. intros st. simpl. reflexivity. Qed.

Lemma preserves_gets {A} (f : state → A) : preserves R (gets f).
Proof. intros st. simpl. reflexivity. Qed.

Lemma preserves_modify (f : state → state) :
  (∀ st, R st (f st)) → preserves R (modify f).
Proof. intros Hf st. apply Hf. Qed.

Lemma preserves_bind {A B} (m : M A) (k : A → M B) :
  preserves R m → (∀ a, preserves R (k a)) → preserves R (bind m k).
Proof.
  intros Hm Hk st. unfold bind. specialize (Hm st).
  destruct (m st) as [[a|e] st1]; simpl in *; [|done].
  etrans; [done|apply Hk].
Qed.

Lemma preserves_try_catch {A} (m h : M A) :
  preserves R m → preserves R h → preserves R (try_catch m h).
Proof.
  intros Hm Hh st. unfold try_catch. specialize (Hm st).
  destruct (m st) as [[a|e] st1]; simpl in *; [done|].
  etrans; [done|apply Hh].
Qed.

Lemma preserves_for_of {A} (xs : list A) (body : A → M unit) :
  (∀ x, preserves R (body x)) → preserves R (for_of xs body).
Proof.
  intros Hbody. induction xs as [|x xs IH]; simpl.
  - apply preserves_ret.
  - apply preserves_bind; auto.
Qed.

Lemma preserves_transform_props (f : value → M value) (l : loc)
    (props : list string) :
  (∀ v, preserves R (f v)) →
  (∀ prop v, preserves R (write_prop l prop v)) →
  preserves R (transform_props f l props).
Proof.
  intros Hf Hw. induction props as [|prop rest IH]; simpl.
  - apply preserves_ret.
  - apply preserves_bind; [apply preserves_gets|intros h].
    apply preserves_bind; [apply Hf|intros v].
    apply preserves_bind; [apply Hw|intros _]. apply IH.
Qed.

Lemma preserves_run_calls (cs : list call) :
  (∀ c, preserves R (run_call c)) → ∀ st, R st (run_calls cs st).
Proof.
  intros Hc. induction cs as [|c cs IH]; intros st; simpl; [reflexivity|].
  etrans; [apply (Hc c)|apply IH].
Qed.

End Preserves.

#[local] Instance keeps_preorder (P : state → Prop) : PreOrder (keeps P).
Proof. split; unfold keeps; [by intros st|intros st1 st2 st3; auto]. Qed.

#[local] Instance same_identity_preorder : PreOrder same_identity.
Proof.
  split.
  - by intros st.
  - intros st1 st2 st3 [Hs1 Ho1] [Hs2 Ho2]. split; [congruence|].
    intros l. destruct (Ho1 l) as (? & ? & ?), (Ho2 l) as (? & ? & ?).
    repeat split; congruence.
Qed.

(** Peel a method body down to its primitive steps; [tac] settles the
    state updates. *)
Ltac preserves_step tac :=
  cbv beta;
  match goal with
  | |- PreOrder _ => apply _
  | |- preserves _ (bind _ _) => apply preserves_bind; [..|intros ?]
  | |- preserves _ (try_catch _ _) => apply preserves_try_catch
  | |- preserves _ (for_of _ _) => apply preserves_for_of; [..|intros ?]
  | |- preserves _ (transform_props _ _ _) =>
      apply preserves_transform_props; [..|intros ?|intros ? ?];
      unfold write_prop
  | |- preserves _ (ret _) => apply preserves_ret
  | |- preserves _ (throw _) => apply preserves_throw
  | |- preserves _ (gets _) => apply preserves_gets
  | |- preserves _ (modify _) => apply preserves_modify; [..|intros ?; tac]
  | |- preserves _ (match ?x with _ => _ end) => destruct x
  | |- preserves _ _ => assumption
  end.

Ltac unfold_methods :=
  unfold run_call, Save, writeJson, clearSecret, encryptAll, decryptAll,
    encryptService, decryptService, encryptValue, decryptValue,
    internalEncrypt, internalDecrypt.

Ltac unfold_validateSecretKey :=
  unfold validateSecretKey, decipher_secretKey, next_uuid, internalEncrypt.

(** ** The services list keeps its two uniqueness invariants *)

Ltac same_identity_update :=
  split; [done|]; intros ?l; simpl;
  try match goal with
      | |- context [<[?l1 := _]> _ ?l2] =>
          destruct (decide (l1 = l2)) as [->|];
          [rewrite fn_lookup_insert|rewrite fn_lookup_insert_ne by done]
      end;
  done.

Lemma same_identity_validateSecretKey :
  preserves same_identity validateSecretKey.
Proof.
  unfold_validateSecretKey. repeat preserves_step same_identity_update.
Qed.

(** Every method but the connect and disconnect ones leaves the list
    and the type, id and name of every object alone. *)
Lemma same_identity_run_call (c : call) :
  match c with
  | CallConnectService _ | CallDisconnectService _ _
  | CallDisconnectServiceByNameOrId _ => True
  | _ => preserves same_identity (run_call c)
  end.
Proof.
  pose proof same_identity_validateSecretKey.
  destruct c; try exact I; unfold_methods;
    repeat preserves_step same_identity_update.
Qed.

Lemma same_identity_unique (st st' : state) :
  same_identity st st' →
  (unique_type_id st → unique_type_id st')
  ∧ (unique_names st → unique_names st').
Proof.
  intros [Hs Ho]. unfold unique_type_id, unique_names, taken_names.
  rewrite Hs.
  assert (type_id_of (heap st') <$> services (bot st)
          = type_id_of (heap st) <$> services (bot st)) as ->.
  { apply list_fmap_ext. intros i l _. unfold type_id_of.
    destruct (Ho l) as (-> & -> & _). done. }
  assert ((λ l, s_name (heap st' l)) <$> services (bot st)
          = (λ l, s_name (heap st l)) <$> services (bot st)) as ->.
  { apply list_fmap_ext. intros i l _. by destruct (Ho l) as (_ & _ & ->). }
  done.
Qed.

Lemma remove_first_delete (p : loc → bool) (svs : list loc) (n i : nat)
    (r : list loc) :
  remove_first p svs i n = Some r → ∃ j, r = delete j svs.
Proof.
  revert i. induction n as [|n IH]; intros i H; [done|]. simpl in H.
  destruct (svs !! i) as [x|]; [|done].
  destruct (p x); [|by eapply IH]. inversion H. by exists i.
Qed.

Lemma NoDup_fmap_delete {A B} (f : A → B) (l : list A) (j : nat) :
  NoDup (f <$> l) → NoDup (f <$> delete j l).
Proof.
  intros Hnd. rewrite list_fmap_delete.
  exact (sublist_NoDup _ _ Hnd (sublist_delete _ _)).
Qed.

(** The store after a disconnect method: the list lost at most one
    entry, the objects are untouched. *)
Lemma disconnect_unique (p : loc → bool) (st : state) (r : list loc) :
  remove_first p (services (bot st)) 0 (length (services (bot st))) = Some r →
  (unique_type_id st →
   unique_type_id (with_bot (with_services r (bot st)) st))
  ∧ (unique_names st →
     unique_names (with_bot (with_services r (bot st)) st)).
Proof.
  intros (j & ->)%remove_first_delete.
  unfold unique_type_id, unique_names, taken_names; simpl.
  split; apply NoDup_fmap_delete.
Qed.

(** A descriptor that passes the duplicate check is not in the list. *)
Lemma fresh_not_listed (st : state) (l : loc) :
  (∀ s, s ∈ services (bot st) → ¬ same_type_id (heap st) l s) →
  l ∉ services (bot st).
Proof. intros Hfresh Hin. by apply (Hfresh l Hin). Qed.

Lemma connected_fmap {B} (f : service → B) (st : state) (l : loc)
    (name : string) :
  l ∉ services (bot st) →
  (λ x, f (heap (connected l name st) x)) <$> services (bot st)
  = (λ x, f (heap st x)) <$> services (bot st).
Proof.
  intros Hl. apply list_fmap_ext. intros i x Hx. simpl.
  rewrite fn_lookup_insert_ne; [done|].
  intros ->. apply Hl. by eapply list_elem_of_lookup_2.
Qed.

Lemma connectService_unique (st : state) (l : loc) :
  (unique_type_id st → unique_type_id (snd (connectService l st)))
  ∧ (unique_names st → unique_names (snd (connectService l st))).
Proof.
  destruct (decide (Exists (same_type_id (heap st) l) (services (bot st))))
    as [Hdup|Hfresh].
  { apply Exists_exists in Hdup as (s & Hin & Hs).
    by rewrite (connectService_dup st l s). }
  assert (∀ s, s ∈ services (bot st) → ¬ same_type_id (heap st) l s)
    as Hfresh'.
  { intros s Hin Hs. apply Hfresh, Exists_exists. by exists s. }
  destruct (connectService_fresh st l Hfresh')
    as (n & _ & -> & Hfree & _).
  pose proof (fresh_not_listed st l Hfresh') as Hl.
  set (name := nth_name (s_name (heap st l)) n) in *.
  set (st1 := connected l name st).
  assert (type_id_of (heap st1) <$> services (bot st)
          = type_id_of (heap st) <$> services (bot st)) as Ht.
  { exact (connected_fmap (λ o, (s_type o, s_id o)) st l name Hl). }
  assert (taken_names (heap st1) (services (bot st))
          = taken_names (heap st) (services (bot st))) as Hn.
  { exact (connected_fmap s_name st l name Hl). }
  assert (type_id_of (heap st1) l = type_id_of (heap st) l) as Ht1.
  { unfold type_id_of, st1; simpl. by rewrite fn_lookup_insert. }
  assert (s_name (heap st1 l) = name) as Hn1.
  { unfold st1; simpl. by rewrite fn_lookup_insert. }
  unfold unique_type_id, unique_names.
  change (snd (Ok tt, st1)) with st1.
  change (services (bot st1)) with (services (bot st) ++ [l]).
  unfold taken_names in *. rewrite !fmap_app, Ht, Hn.
  change (type_id_of (heap st1) <$> [l]) with [type_id_of (heap st1) l].
  change ((λ l0, s_name (heap st1 l0)) <$> [l]) with [s_name (heap st1 l)].
  rewrite Ht1, Hn1.
  split; intros Hnd; apply NoDup_app; (split; [done|]);
    (split; [|apply NoDup_singleton]);
    intros x Hx ->%list_elem_of_singleton.
  - apply list_elem_of_fmap in Hx as (s & Heq & Hin).
    apply (Hfresh' s Hin). unfold same_type_id, type_id_of in *.
    by inversion Heq.
  - by apply Hfree.
Qed.

Lemma run_call_unique (c : call) (st : state) :
  (unique_type_id st → unique_type_id (snd (run_call c st)))
  ∧ (unique_names st → unique_names (snd (run_call c st))).
Proof.
  pose proof (same_identity_run_call c) as Hc.
  destruct c; try (apply same_identity_unique, Hc).
  - apply connectService_unique.
  - simpl. unfold disconnectService, bind, gets; cbv beta iota zeta.
    destruct (remove_first _ _ _ _) eqn:Hr; [|done].
    by apply (disconnect_unique _ _ _ Hr).
  - simpl. unfold disconnectServiceByNameOrId, bind, gets; cbv beta iota zeta.
    destruct (remove_first _ _ _ _) eqn:Hr; [|done].
    by apply (disconnect_unique _ _ _ Hr).
Qed.

(** X1.  Whatever methods are called on a store, in whatever order and
    whether they return or throw, no two listed services ever share
    their type and id, provided none did at the start; a store whose
    list starts empty is such a store. *)
Theorem run_calls_unique_type_id (cs : list call) (st : state) :
  (unique_type_id st → unique_type_id (run_calls cs st))
  ∧ (services (bot st) = [] → unique_type_id (run_calls cs st)).
Proof.
  assert (unique_type_id st → unique_type_id (run_calls cs st)) as H.
  { revert st. induction cs as [|c cs IH]; intros st Hst; [done|].
    simpl. apply IH. by apply run_call_unique. }
  split; [done|]. intros Hnil. apply H.
  unfold unique_type_id. rewrite Hnil. apply NoDup_nil_2.
Qed.

(** X2.  Likewise no two listed services ever share their name. *)
Theorem run_calls_unique_names (cs : list call) (st : state) :
  (unique_names st → unique_names (run_calls cs st))
  ∧ (services (bot st) = [] → unique_names (run_calls cs st)).
Proof.
  assert (unique_names st → unique_names (run_calls cs st)) as H.
  { revert st. induction cs as [|c cs IH]; intros st Hst; [done|].
    simpl. apply IH. by apply run_call_unique. }
  split; [done|]. intros Hnil. apply H.
  unfold unique_names. rewrite Hnil. apply NoDup_nil_2.
Qed.

(** ** After clearSecret *)

Ltac unfold_list_methods :=
  unfold connectService, write_name, disconnectService,
    disconnectServiceByNameOrId.

Lemma cleared_validateSecretKey : preserves (keeps cleared) validateSecretKey.
Proof.
  intros st [Hv Hk]. by rewrite validateSecretKey_validated.
Qed.

Lemma cleared_run_call (c : call) : preserves (keeps cleared) (run_call c).
Proof.
  pose proof cleared_validateSecretKey.
  destruct c; unfold_methods; unfold_list_methods;
    repeat preserves_step
      ltac:(unfold keeps, cleared; simpl; intros [? ?]; by split).
Qed.

Lemma Save_plaintext (st : state) (botpath : value) (p : string) :
  or_value botpath (location (bot st)) = VStr p → p ≠ "" →
  secretKey (bot st) = "" →
  Save botpath st
    = (Ok tt, with_disk (<[p := bot_json (bot st) (heap st)]> (disk st)) st).
Proof.
  intros Hpath Hp Hk. unfold Save. unfold bind at 1. unfold gets at 1.
  rewrite length_ltb_zero, Hk. simpl negb. cbv iota.
  unfold bind at 1. unfold ret at 1. unfold bind at 1. unfold gets at 1.
  unfold bind at 1. rewrite Hpath. unfold writeJson.
  by rewrite length_eqb_zero, bool_decide_eq_false_2.
Qed.

(** X3.  Once clearSecret has succeeded, no sequence of method calls on the
    instance brings a verifier back: validateSecretKey returns at once,
    encryptValue and decryptValue hand their argument back, and every
    Save to a usable path writes the services as they are, with an
    empty verifier. *)
Theorem clearSecret_is_final (st st' : state) (cs : list call) :
  clearSecret st = (Ok tt, st') →
  secretKey (bot (run_calls cs st')) = ""
  ∧ validateSecretKey (run_calls cs st') = (Ok tt, run_calls cs st')
  ∧ (∀ v, encryptValue v (run_calls cs st') = (Ok v, run_calls cs st')
          ∧ decryptValue v (run_calls cs st') = (Ok v, run_calls cs st'))
  ∧ (∀ botpath p,
       or_value botpath (location (bot (run_calls cs st'))) = VStr p →
       p ≠ "" →
       ∃ st2, Save botpath (run_calls cs st') = (Ok tt, st2)
              ∧ heap st2 = heap (run_calls cs st')
              ∧ disk st2 !! p
                = Some (bot_json (bot (run_calls cs st'))
                          (heap (run_calls cs st')))
              ∧ f_secretKey (bot_json (bot (run_calls cs st'))
                               (heap (run_calls cs st'))) = "").
Proof.
  intros Hrun.
  assert (cleared st') as Hc.
  { unfold clearSecret, bind, modify in Hrun.
    destruct (validateSecretKey st) as [[[]|e] st1] eqn:Hv; [|done].
    apply validateSecretKey_Ok in Hv. inversion Hrun; subst. by split. }
  assert (cleared (run_calls cs st')) as [Hflag Hkey].
  { by apply (preserves_run_calls (keeps cleared) cs cleared_run_call st'). }
  split; [done|]. split; [by apply validateSecretKey_validated|].
  split.
  { intros v.
    split; [apply encryptValue_passthrough|apply decryptValue_passthrough];
      by right. }
  intros botpath p Hpath Hp. eexists.
  split; [by apply Save_plaintext|]. simpl.
  split; [done|]. split; [by rewrite lookup_insert_eq|done].
Qed.

(** ** One service through encryptService and decryptService *)

(** X4.  With an accepted secret, encryptService replaces the value of every
    property the table lists for the type of the service by what
    encryptValue makes of it, and changes nothing else: no other
    property, not the type, id or name, no other object.  decryptService
    on the result gives every property its former value back. *)
Theorem encryptService_fields (st : state) (l : loc) (s : string) :
  accepts s st →
  ∃ st1 st2,
    encryptService l st = (Ok l, st1)
    ∧ (∀ k, get_prop (heap st1 l) k =
            if decide (k ∈ getEncryptedProperties (s_type (heap st l)))
            then encrypt_pure s (get_prop (heap st l) k)
            else get_prop (heap st l) k)
    ∧ s_type (heap st1 l) = s_type (heap st l)
    ∧ s_id (heap st1 l) = s_id (heap st l)
    ∧ s_name (heap st1 l) = s_name (heap st l)
    ∧ (∀ l', l' ≠ l → heap st1 l' = heap st l')
    ∧ decryptService l st1 = (Ok l, st2)
    ∧ (∀ k, get_prop (heap st2 l) k = get_prop (heap st l) k)
    ∧ (∀ l', l' ≠ l → heap st2 l' = heap st l').
Proof.
  intros Hacc.
  destruct (transform_props_run s encryptValue l
              (λ k, encrypt_pure s (get_prop (heap st l) k))
              (getEncryptedProperties (s_type (heap st l))) st)
    as (st1 & Hrun1 & Hsame1 & Hother1 & Ht1 & Hi1 & Hn1 & Hread1).
  { apply getEncryptedProperties_NoDup. }
  { done. }
  { intros k st0 _ Hacc0. by apply encryptValue_accepts. }
  destruct (transform_props_run s decryptValue l
              (λ k, get_prop (heap st l) k)
              (getEncryptedProperties (s_type (heap st1 l))) st1)
    as (st2 & Hrun2 & Hsame2 & Hother2 & Ht2 & Hi2 & Hn2 & Hread2).
  { apply getEncryptedProperties_NoDup. }
  { by eapply accepts_same_store. }
  { intros k st0 Hk Hacc0. rewrite Hread1, <- Ht1, decide_True by done.
    by apply decryptValue_accepts. }
  exists st1, st2. split.
  { unfold encryptService, bind, gets; cbv beta iota zeta. by rewrite Hrun1. }
  do 5 (split; [done|]). split.
  { unfold decryptService, bind, gets; cbv beta iota zeta. by rewrite Hrun2. }
  split.
  - intros k. rewrite Hread2, Hread1, Ht1. by case_decide.
  - intros l' Hl'. by rewrite Hother2, Hother1.
Qed.

(** ** A secret that is turned down *)

Lemma validateSecretKey_rejects (e : error) (st : state) :
  rejects e st → validateSecretKey st = (Throw e, st).
Proof.
  intros (Hv & Hk & [[He ->]|(s & Hs & Hne & Hd & ->)]).
  - by apply validateSecretKey_missing.
  - by rewrite (validateSecretKey_check st s), Hd.
Qed.

Lemma encryptValue_rejects_if (e : error) (st : state) (v : value) :
  rejects e st →
  encryptValue v st = if is_empty v then (Ok v, st) else (Throw e, st).
Proof.
  intros Hrej. destruct (is_empty v) eqn:Hv.
  { apply encryptValue_passthrough. by left. }
  destruct v as [|p]; [done|]. rewrite is_empty_VStr in Hv.
  apply bool_decide_eq_false in Hv. pose proof Hrej as (_ & Hk & _).
  rewrite encryptValue_unfold by done. unfold bind.
  by rewrite (validateSecretKey_rejects e).
Qed.

Lemma decryptValue_rejects_if (e : error) (st : state) (v : value) :
  rejects e st →
  decryptValue v st = if is_empty v then (Ok v, st) else (Throw e, st).
Proof.
  intros Hrej. destruct (is_empty v) eqn:Hv.
  { apply decryptValue_passthrough. by left. }
  destruct v as [|p]; [done|]. rewrite is_empty_VStr in Hv.
  apply bool_decide_eq_false in Hv. pose proof Hrej as (_ & Hk & _).
  rewrite decryptValue_unfold by done. unfold bind.
  by rewrite (validateSecretKey_rejects e).
Qed.

(** X5.  On a store with a verifier and an unset validated flag, every
    encryptValue, decryptValue and validateSecretKey raises the
    missing-secret error when no secret was supplied, and the
    incorrect-secret error when the verifier does not decipher under
    the supplied one; the store is left exactly as it was.  Empty values
    still pass through. *)
Theorem sensitive_operations_rejected (e : error) (st : state) (v : value) :
  rejects e st →
  validateSecretKey st = (Throw e, st)
  ∧ (is_empty v = false →
     encryptValue v st = (Throw e, st) ∧ decryptValue v st = (Throw e, st))
  ∧ (is_empty v = true →
     encryptValue v st = (Ok v, st) ∧ decryptValue v st = (Ok v, st)).
Proof.
  intros Hrej. split; [by apply validateSecretKey_rejects|].
  rewrite (encryptValue_rejects_if e), (decryptValue_rejects_if e) by done.
  split; intros ->; done.
Qed.

(** ** Save when the file cannot be written *)

(** X6.  When neither [botpath] nor the load location names a file, Save on
    a store with a verifier and an accepted secret raises after
    encryptAll has run: nothing is written, and the live services are
    left enciphered, each listed sensitive property once per occurrence
    of its service in the list (once, when no object is listed
    twice). *)
Theorem Save_unwritable (st : state) (botpath : value) (s : string) :
  accepts s st →
  is_empty (or_value botpath (location (bot st))) = true →
  ∃ st',
    Save botpath st = (Throw WriteError, st')
    ∧ disk st' = disk st
    ∧ layered s (heap st)
        (λ l, count_occ Nat.eq_dec (services (bot st)) l) (heap st')
    ∧ (NoDup (services (bot st)) →
       ∀ l k, l ∈ services (bot st) →
              k ∈ getEncryptedProperties (s_type (heap st l)) →
              get_prop (heap st' l) k
                = encrypt_pure s (get_prop (heap st l) k)).
Proof.
  intros Hacc Hpath. pose proof Hacc as (_ & Hk & _).
  destruct (for_encrypt_layered s (heap st) (services (bot st)) (λ _, 0)
              st Hacc (layered_0 s (heap st)))
    as (st1 & Hrun1 & Hsame1 & Hlay1).
  simpl in Hlay1.
  destruct (same_store_fields _ _ Hsame1) as (Hsv1 & Hloc1 & _).
  exists st1. split.
  { unfold Save. unfold bind at 1. unfold gets at 1.
    rewrite length_ltb_zero, bool_decide_eq_false_2 by done.
    simpl negb. cbv iota.
    unfold bind at 1. unfold encryptAll at 1. unfold bind at 1.
    unfold gets at 1. rewrite Hrun1.
    unfold bind at 1. unfold gets at 1. unfold bind at 1.
    rewrite Hloc1. unfold writeJson.
    destruct (or_value botpath (location (bot st))) as [|p]; [done|].
    simpl in Hpath. by rewrite Hpath. }
  split; [by destruct Hsame1|]. split; [done|].
  intros Hnd l k Hl Hk'. destruct (Hlay1 l) as (_ & _ & _ & ->).
  rewrite decide_True by done.
  apply NoDup_ListNoDup in Hnd.
  rewrite (proj1 (NoDup_count_occ' Nat.eq_dec _) Hnd l); [done|].
  by apply list_elem_of_In.
Qed.

(** ** Save and the bulk methods with a secret that is turned down *)

Lemma same_reads_refl (h : loc → service) : same_reads h h.
Proof. by intros l. Qed.

Lemma same_reads_trans (h1 h2 h3 : loc → service) :
  same_reads h1 h2 → same_reads h2 h3 → same_reads h1 h3.
Proof.
  intros H12 H23 l.
  destruct (H12 l) as (? & ? & ? & Hr1), (H23 l) as (? & ? & ? & Hr2).
  repeat split; congruence.
Qed.

Lemma with_heap_same (st : state) : with_heap (heap st) st = st.
Proof. by destruct st. Qed.

Lemma existsb_eq {A} (f g : A → bool) (l : list A) :
  (∀ x, f x = g x) → existsb f l = existsb g l.
Proof. intros Hfg. induction l as [|x l IH]; simpl; [done|]. by rewrite Hfg, IH. Qed.

Lemma has_secrets_same_reads (h h' : loc → service) (svcs : list loc) :
  same_reads h h' → has_secrets h' svcs = has_secrets h svcs.
Proof.
  intros Hsame. unfold has_secrets. apply existsb_eq. intros l.
  destruct (Hsame l) as (-> & _ & _ & Hr). apply existsb_eq. intros k.
  by rewrite Hr.
Qed.

(** The property loop under a turned-down secret: it stops with the
    error at the first non-empty value and rewrites the empty ones with
    themselves. *)
Lemma transform_props_rejects (e : error) (f : value → M value) (l : loc)
    (props : list string) (st : state) :
  rejects e st →
  (∀ v st0, rejects e st0 →
     f v st0 = if is_empty v then (Ok v, st0) else (Throw e, st0)) →
  ∃ h', transform_props f l props st
        = (if existsb (λ k, negb (is_empty (get_prop (heap st l) k))) props
           then Throw e else Ok tt,
           with_heap h' st)
        ∧ same_reads (heap st) h'.
Proof.
  intros Hrej Hf. revert st Hrej.
  induction props as [|k rest IH]; intros st Hrej.
  { exists (heap st). by rewrite with_heap_same. }
  simpl. unfold bind at 1. unfold gets at 1. unfold bind at 1.
  rewrite Hf by done.
  destruct (is_empty (get_prop (heap st l) k)) eqn:He; simpl negb; simpl orb.
  2:{ exists (heap st). by rewrite with_heap_same. }
  unfold bind at 1. unfold write_prop at 1. unfold modify at 1.
  set (st1 := with_heap _ st).
  assert (same_reads (heap st) (heap st1)) as Hsame.
  { intros l'. unfold st1; simpl. destruct (decide (l = l')) as [->|Hne].
    - rewrite fn_lookup_insert. repeat split. intros k'.
      rewrite get_prop_set_prop. by case_decide; subst.
    - by rewrite fn_lookup_insert_ne. }
  destruct (IH st1 Hrej) as (h' & -> & Hsame').
  exists h'. split; [|by eapply same_reads_trans].
  assert (existsb (λ k', negb (is_empty (get_prop (heap st1 l) k'))) rest
          = existsb (λ k', negb (is_empty (get_prop (heap st l) k'))) rest)
    as ->; [|done].
  apply existsb_eq. intros k'. by destruct (Hsame l) as (_ & _ & _ & ->).
Qed.

Lemma encryptService_rejects (e : error) (l : loc) (st : state) :
  rejects e st →
  ∃ h', (encryptService l ;; ret tt) st
        = (if has_secrets (heap st) [l] then Throw e else Ok tt,
           with_heap h' st)
        ∧ same_reads (heap st) h'.
Proof.
  intros Hrej.
  destruct (transform_props_rejects e encryptValue l
              (getEncryptedProperties (s_type (heap st l))) st Hrej)
    as (h' & Hrun & Hsame).
  { intros v st0. apply encryptValue_rejects_if. }
  exists h'. split; [|done].
  unfold encryptService, bind, gets; cbv beta iota zeta. rewrite Hrun.
  unfold has_secrets; simpl. rewrite orb_false_r. by destruct (existsb _ _).
Qed.

Lemma decryptService_rejects (e : error) (l : loc) (st : state) :
  rejects e st →
  ∃ h', (decryptService l ;; ret tt) st
        = (if has_secrets (heap st) [l] then Throw e else Ok tt,
           with_heap h' st)
        ∧ same_reads (heap st) h'.
Proof.
  intros Hrej.
  destruct (transform_props_rejects e decryptValue l
              (getEncryptedProperties (s_type (heap st l))) st Hrej)
    as (h' & Hrun & Hsame).
  { intros v st0. apply decryptValue_rejects_if. }
  exists h'. split; [|done].
  unfold decryptService, bind, gets; cbv beta iota zeta. rewrite Hrun.
  unfold has_secrets; simpl. rewrite orb_false_r. by destruct (existsb _ _).
Qed.

Lemma for_of_rejects (e : error) (body : loc → M unit) (svcs : list loc)
    (st : state) :
  (∀ l st0, rejects e st0 →
     ∃ h', body l st0
           = (if has_secrets (heap st0) [l] then Throw e else Ok tt,
              with_heap h' st0)
           ∧ same_reads (heap st0) h') →
  rejects e st →
  ∃ h', for_of svcs body st
        = (if has_secrets (heap st) svcs then Throw e else Ok tt,
           with_heap h' st)
        ∧ same_reads (heap st) h'.
Proof.
  intros Hbody. revert st. induction svcs as [|l rest IH]; intros st Hrej.
  { exists (heap st). by rewrite with_heap_same. }
  simpl for_of. unfold bind at 1.
  destruct (Hbody l st Hrej) as (h1 & -> & Hsame1).
  change (has_secrets (heap st) (l :: rest))
    with (existsb (λ k, negb (is_empty (get_prop (heap st l) k)))
            (getEncryptedProperties (s_type (heap st l)))
          || has_secrets (heap st) rest).
  unfold has_secrets at 1. simpl existsb. rewrite orb_false_r.
  destruct (existsb _ (getEncryptedProperties _)); simpl orb.
  { by exists h1. }
  destruct (IH (with_heap h1 st) Hrej) as (h' & -> & Hsame').
  exists h'. simpl heap in *.
  rewrite (has_secrets_same_reads (heap st) h1) by done.
  split; [done|]. by eapply same_reads_trans.
Qed.

Lemma Save_rejects_throw (e : error) (st : state) (botpath : value) :
  rejects e st →
  has_secrets (heap st) (services (bot st)) = true →
  ∃ h', Save botpath st = (Throw e, with_heap h' st)
        ∧ same_reads (heap st) h'.
Proof.
  intros Hrej Hsec. pose proof Hrej as (_ & Hk & _).
  destruct (for_of_rejects e (λ l, encryptService l ;; ret tt)
              (services (bot st)) st) as (h1 & Hrun1 & Hsame1);
    [by intros; apply encryptService_rejects|done|].
  exists h1. split; [|done].
  unfold Save. unfold bind at 1. unfold gets at 1.
  rewrite length_ltb_zero, bool_decide_eq_false_2 by done.
  simpl negb. cbv iota.
  unfold bind at 1. unfold encryptAll. unfold bind at 1. unfold gets at 1.
  by rewrite Hrun1, Hsec.
Qed.

(** X7.  On a store whose secret is turned down, Save raises that error and
    writes nothing as soon as some listed service holds a non-empty
    sensitive value; the services read as before.  When no listed
    service holds one, the turned-down secret goes unnoticed: Save
    writes the file and returns. *)
Theorem Save_rejects (e : error) (st : state) (botpath : value) :
  rejects e st →
  (has_secrets (heap st) (services (bot st)) = true →
   ∃ h', Save botpath st = (Throw e, with_heap h' st)
         ∧ same_reads (heap st) h')
  ∧ (has_secrets (heap st) (services (bot st)) = false →
     ∀ p, or_value botpath (location (bot st)) = VStr p → p ≠ "" →
     ∃ h1 h2,
       Save botpath st
       = (Ok tt,
          with_heap h2 (with_disk (<[p := bot_json (bot st) h1]> (disk st)) st))
       ∧ same_reads (heap st) h1 ∧ same_reads (heap st) h2).
Proof.
  intros Hrej. pose proof Hrej as (_ & Hk & _).
  destruct (for_of_rejects e (λ l, encryptService l ;; ret tt)
              (services (bot st)) st) as (h1 & Hrun1 & Hsame1);
    [by intros; apply encryptService_rejects|done|].
  assert (Save botpath st
          = (encryptAll ;; st0 <- gets (λ st0, st0) ;;
             writeJson (or_value botpath (location (bot st0)))
               (bot_json (bot st0) (heap st0)) ;;
             decryptAll) st) as ->.
  { unfold Save. unfold bind at 1. unfold gets at 1.
    by rewrite length_ltb_zero, bool_decide_eq_false_2. }
  split.
  - intros Hsec. unfold bind at 1. unfold encryptAll. unfold bind at 1.
    unfold gets at 1. rewrite Hrun1, Hsec. by exists h1.
  - intros Hsec p Hpath Hp. unfold bind at 1. unfold encryptAll.
    unfold bind at 1. unfold gets at 1. rewrite Hrun1, Hsec.
    unfold bind at 1. unfold gets at 1. unfold bind at 1.
    simpl bot. rewrite Hpath. unfold writeJson.
    rewrite length_eqb_zero, bool_decide_eq_false_2 by done.
    unfold modify. simpl.
    set (st2 := with_disk _ (with_heap h1 st)).
    destruct (for_of_rejects e (λ l, decryptService l ;; ret tt)
                (services (bot st)) st2) as (h2 & Hrun2 & Hsame2);
      [by intros; apply decryptService_rejects|done|].
    unfold decryptAll, bind at 1, gets at 1.
    change (bot st2) with (bot st). rewrite Hrun2.
    change (heap st2) with h1.
    rewrite (has_secrets_same_reads (heap st) h1) by done.
    exists h1, h2. split; [|split; [done|by eapply same_reads_trans]].
    by rewrite Hsec.
Qed.

(** ** Load *)

Lemma of_tag_ServiceType_tag (t : ServiceType) :
  of_tag (ServiceType_tag t) = Some t.
Proof. by destruct t. Qed.

Lemma of_json_to_json (o : service) :
  of_json (to_json o) = Some (through_json o).
Proof. unfold of_json, to_json; simpl. by rewrite of_tag_ServiceType_tag. Qed.

Lemma get_prop_through_json (o : service) (k : string) :
  get_prop (through_json o) k = get_prop o k.
Proof.
  unfold get_prop, through_json; simpl.
  rewrite lookup_fmap, lookup_omap.
  by destruct (s_props o !! k) as [[|s]|].
Qed.

Lemma mapM_of_json (h : loc → service) (svcs : list loc) :
  mapM of_json ((λ l, to_json (h l)) <$> svcs)
  = Some ((λ l, through_json (h l)) <$> svcs).
Proof.
  apply mapM_Some. induction svcs as [|l rest IH]; [constructor|].
  rewrite !fmap_cons. constructor; [apply of_json_to_json|done].
Qed.

Lemma alloc_lookup (objs : list service) (fresh : loc) (h : loc → service)
    (i : nat) (o : service) :
  objs !! i = Some o → alloc fresh objs h (fresh + i) = o.
Proof.
  revert fresh i. induction objs as [|o' rest IH]; intros fresh i Hi; [done|].
  simpl. destruct i as [|i]; simpl in Hi.
  - inversion Hi; subst. rewrite Nat.add_0_r. apply fn_lookup_insert.
  - rewrite fn_lookup_insert_ne by lia.
    replace (fresh + S i) with (S fresh + i) by lia. by apply IH.
Qed.

Lemma alloc_lookup_out (objs : list service) (fresh : loc)
    (h : loc → service) (l : loc) :
  l < fresh ∨ fresh + length objs ≤ l → alloc fresh objs h l = h l.
Proof.
  revert fresh. induction objs as [|o rest IH]; intros fresh Hl; [done|].
  simpl in *. rewrite fn_lookup_insert_ne by lia. apply IH. lia.
Qed.

Lemma count_occ_seq (fresh n : nat) (l : loc) :
  count_occ Nat.eq_dec (seq fresh n) l
  = if decide (fresh ≤ l < fresh + n) then 1 else 0.
Proof.
  case_decide as Hl.
  - apply NoDup_count_occ'; [apply seq_NoDup|]. apply in_seq. lia.
  - apply count_occ_not_In. rewrite in_seq. lia.
Qed.

(** Save on a store that accepts the secret, whose objects already
    carry [cnt] layers of encryption over [h0]. *)
Lemma Save_layered (st : state) (botpath : value) (p s : string)
    (h0 : loc → service) (cnt : loc → nat) :
  or_value botpath (location (bot st)) = VStr p → p ≠ "" →
  accepts s st → layered s h0 cnt (heap st) →
  ∃ st' h1,
    Save botpath st = (Ok tt, st')
    ∧ disk st' = <[p := bot_json (bot st) h1]> (disk st)
    ∧ layered s h0
        (λ l, cnt l + count_occ Nat.eq_dec (services (bot st)) l) h1
    ∧ layered s h0 cnt (heap st')
    ∧ uuids st' = uuids st
    ∧ (bot st' = bot st ∨ bot st' = with_secretValidated true (bot st)).
Proof.
  intros Hpath Hp Hacc Hlay. pose proof Hacc as (_ & Hk & _).
  destruct (for_encrypt_layered s h0 (services (bot st)) cnt st Hacc Hlay)
    as (st1 & Hrun1 & Hsame1 & Hlay1).
  destruct (same_store_fields _ _ Hsame1) as (Hsv1 & Hloc1 & _).
  pose proof (accepts_same_store _ _ _ Hacc Hsame1) as Hacc1.
  set (st2 := with_disk (<[p := bot_json (bot st1) (heap st1)]> (disk st1))
                st1).
  destruct (for_decrypt_layered s h0 (services (bot st)) cnt st2)
    as (st3 & Hrun3 & Hsame3 & Hlay3); [done..|].
  exists st3, (heap st1). split.
  { unfold Save. unfold bind at 1. unfold gets at 1.
    rewrite length_ltb_zero, bool_decide_eq_false_2 by done.
    simpl negb. cbv iota.
    unfold bind at 1. unfold encryptAll at 1. unfold bind at 1.
    unfold gets at 1. rewrite Hrun1.
    unfold bind at 1. unfold gets at 1. unfold bind at 1.
    rewrite Hloc1, Hpath. unfold writeJson.
    rewrite length_eqb_zero, bool_decide_eq_false_2 by done.
    unfold modify. fold st2.
    unfold decryptAll. unfold bind at 1. unfold gets at 1.
    change (bot st2) with (bot st1). by rewrite Hsv1, Hrun3. }
  destruct Hsame3 as (Hd3 & Hu3 & Hb3). destruct Hsame1 as (Hd1 & Hu1 & Hb1).
  split.
  { rewrite Hd3. unfold st2; simpl. rewrite Hd1.
    by rewrite (same_store_bot_json st st1). }
  split; [done|]. split; [done|]. split; [by rewrite Hu3|].
  unfold st2 in Hb3; simpl in Hb3.
  destruct Hb3 as [-> | ->], Hb1 as [-> | ->]; auto.
Qed.

Lemma accepts_bot (s : string) (st st' : state) :
  accepts s st →
  bot st' = bot st ∨ bot st' = with_secretValidated true (bot st) →
  accepts s st'.
Proof.
  intros (Hs & Hk & Hv) [Hb|Hb]; unfold accepts; rewrite Hb; simpl; auto.
Qed.

(** The store Load builds before it looks at the secret. *)
Lemma Load_unfold (fresh : loc) (botpath : string) (sec : value)
    (st : state) (f : BotFile) (objs : list service) :
  botpath ≠ "" →
  disk st !! botpath = Some f →
  mapM of_json (f_services f) = Some objs →
  Load fresh botpath sec st
  = (let st1 :=
       with_bot {| secretValidated := false; secret := sec;
                   location := VStr botpath; name := f_name f;
                   secretKey := f_secretKey f;
                   description := f_description f;
                   services := seq fresh (length objs) |}
         (with_heap (alloc fresh objs (heap st)) st) in
     let (r, st2) :=
       (if negb (is_empty sec) && Nat.ltb 0 (String.length (f_secretKey f))
        then decryptAll else ret tt) st1 in
     Loaded r st2).
Proof.
  intros Hp Hf Hobjs. unfold Load.
  by rewrite length_eqb_zero, bool_decide_eq_false_2, Hf, Hobjs.
Qed.

(** X8.  A store saved with a secret its verifier deciphers under, and
    loaded back from the written file with the same secret, has the
    same name, description and verifier and the same services in the
    same order: each loaded service has the type, id and name of the
    saved one and reads the same at every property. *)
Theorem Save_Load_round_trip (st : state) (botpath : value) (p s : string)
    (fresh : loc) :
  or_value botpath (location (bot st)) = VStr p → p ≠ "" →
  secret (bot st) = VStr s → s ≠ "" →
  secretKey (bot st) ≠ "" →
  is_Some (decipher s (secretKey (bot st))) →
  NoDup (services (bot st)) →
  ∃ st1 st2,
    Save botpath st = (Ok tt, st1)
    ∧ Load fresh p (VStr s) st1 = Loaded (Ok tt) st2
    ∧ services (bot st2) = seq fresh (length (services (bot st)))
    ∧ name (bot st2) = name (bot st)
    ∧ description (bot st2) = description (bot st)
    ∧ secretKey (bot st2) = secretKey (bot st)
    ∧ location (bot st2) = VStr p
    ∧ ∀ i l, services (bot st) !! i = Some l →
        s_type (heap st2 (fresh + i)) = s_type (heap st l)
        ∧ s_id (heap st2 (fresh + i)) = s_id (heap st l)
        ∧ s_name (heap st2 (fresh + i)) = s_name (heap st l)
        ∧ ∀ k, get_prop (heap st2 (fresh + i)) k = get_prop (heap st l) k.
Proof.
  intros Hpath Hp Hs Hne Hk Hdec Hnd.
  assert (accepts s st) as Hacc by (unfold accepts; auto).
  destruct (Save_layered st botpath p s (heap st) (λ _, 0) Hpath Hp Hacc
              (layered_0 s (heap st)))
    as (st1 & h1 & Hsave & Hdisk & Hlay1 & _).
  simpl in Hlay1.
  set (svcs := services (bot st)) in *.
  set (n := length svcs).
  set (objs := (λ l, through_json (h1 l)) <$> svcs).
  set (b := {| secretValidated := false; secret := VStr s;
               location := VStr p; name := name (bot st);
               secretKey := secretKey (bot st);
               description := description (bot st);
               services := seq fresh (length objs) |}).
  set (stL := with_bot b (with_heap (alloc fresh objs (heap st1)) st1)).
  set (h0 := alloc fresh ((λ l, through_json (heap st l)) <$> svcs)
               (heap st1)).
  assert (length objs = n) as Hlen by (unfold objs; by rewrite length_fmap).
  assert (accepts s stL) as HaccL.
  { unfold accepts, stL, b; simpl. auto. }
  assert (layered s h0 (λ l, 0 + count_occ Nat.eq_dec (seq fresh n) l)
            (heap stL)) as HlayL.
  { intros l. simpl. rewrite count_occ_seq. unfold h0.
    case_decide as Hl.
    - destruct (lookup_lt_is_Some_2 svcs (l - fresh)) as [li Hli];
        [unfold n in Hl; lia|].
      replace l with (fresh + (l - fresh)) by lia.
      rewrite (alloc_lookup objs fresh _ (l - fresh) (through_json (h1 li)))
        by (unfold objs; by rewrite list_lookup_fmap, Hli).
      rewrite (alloc_lookup _ fresh _ (l - fresh) (through_json (heap st li)))
        by (by rewrite list_lookup_fmap, Hli).
      destruct (Hlay1 li) as (Ht & Hi & Hn & Hr). simpl.
      repeat split; try done.
      intros k. rewrite !get_prop_through_json, Hr.
      apply NoDup_ListNoDup in Hnd.
      rewrite (proj1 (NoDup_count_occ' Nat.eq_dec _) Hnd li); [done|].
      apply list_elem_of_In. by eapply list_elem_of_lookup_2.
    - rewrite !alloc_lookup_out by (rewrite ?length_fmap; fold n; lia).
      repeat split. intros k. simpl. by case_decide. }
  destruct (for_decrypt_layered s h0 (seq fresh n) (λ _, 0) stL HaccL HlayL)
    as (st2 & Hrun & Hsame & Hlay2).
  exists st1, st2. split; [done|]. split.
  { rewrite (Load_unfold fresh p (VStr s) st1 (bot_json (bot st) h1) objs).
    - simpl f_secretKey. simpl f_name. simpl f_description.
      fold b. fold stL. rewrite is_empty_VStr, bool_decide_eq_false_2 by done.
      rewrite length_ltb_zero, bool_decide_eq_false_2 by done.
      change (negb false && negb false) with true. cbv iota zeta.
      unfold decryptAll. unfold bind at 1. unfold gets at 1. cbv beta iota.
      change (services (bot stL)) with (seq fresh (length objs)).
      by rewrite Hlen, Hrun.
    - done.
    - by rewrite Hdisk, lookup_insert_eq.
    - apply mapM_of_json. }
  destruct Hsame as (_ & _ & Hb).
  assert (services (bot st2) = services b ∧ name (bot st2) = name b
          ∧ description (bot st2) = description b
          ∧ secretKey (bot st2) = secretKey b
          ∧ location (bot st2) = location b) as (-> & -> & -> & -> & ->).
  { by destruct Hb as [-> | ->]. }
  simpl. rewrite Hlen. do 5 (split; [done|]).
  intros i l Hi.
  destruct (layered_0_reads s h0 (heap st2) (fresh + i) Hlay2)
    as (Ht & Hid & Hn & Hr).
  assert (h0 (fresh + i) = through_json (heap st l)) as Hh0.
  { unfold h0. apply alloc_lookup. by rewrite list_lookup_fmap, Hi. }
  rewrite Ht, Hid, Hn, Hh0. repeat split.
  intros k. by rewrite Hr, Hh0, get_prop_through_json.
Qed.

Lemma has_secrets_true (h : loc → service) (svcs : list loc) :
  has_secrets h svcs = true
  ↔ ∃ l k, l ∈ svcs ∧ k ∈ getEncryptedProperties (s_type (h l))
           ∧ is_empty (get_prop (h l) k) = false.
Proof.
  unfold has_secrets. rewrite existsb_exists. split.
  - intros (l & Hl & (k & Hk & He)%existsb_exists).
    exists l, k. rewrite !list_elem_of_In. by apply negb_true_iff in He.
  - intros (l & k & Hl & Hk & He). exists l.
    rewrite <- list_elem_of_In. split; [done|].
    apply existsb_exists. exists k. rewrite <- list_elem_of_In.
    by rewrite He.
Qed.

Lemma has_secrets_alloc (fresh : loc) (objs : list service)
    (h : loc → service) :
  has_secrets (alloc fresh objs h) (seq fresh (length objs)) = true
  ↔ ∃ i o k, objs !! i = Some o
             ∧ k ∈ getEncryptedProperties (s_type o)
             ∧ is_empty (get_prop o k) = false.
Proof.
  rewrite has_secrets_true. split.
  - intros (l & k & Hl & Hk & He).
    apply elem_of_seq in Hl.
    destruct (lookup_lt_is_Some_2 objs (l - fresh)) as [o Ho]; [lia|].
    pose proof (alloc_lookup objs fresh h _ _ Ho) as Hal.
    replace (fresh + (l - fresh)) with l in Hal by lia.
    rewrite Hal in *. by exists (l - fresh), o, k.
  - intros (i & o & k & Ho & Hk & He).
    exists (fresh + i), k. rewrite (alloc_lookup objs fresh h i o Ho).
    split; [|done]. apply elem_of_seq.
    apply lookup_lt_Some in Ho. lia.
Qed.

(** X9.  Load with no secret, or of a file without verifier, neither
    validates nor deciphers: it returns normally and the services are
    the parsed ones, as stored.  When the file has a verifier and holds
    a non-empty sensitive value, a Save on the store loaded without
    secret raises the missing-secret error and writes nothing. *)
Theorem Load_without_secret (fresh : loc) (p : string) (sec : value)
    (st : state) (f : BotFile) (objs : list service) :
  p ≠ "" →
  disk st !! p = Some f →
  mapM of_json (f_services f) = Some objs →
  is_empty sec = true ∨ f_secretKey f = "" →
  ∃ stL,
    Load fresh p sec st = Loaded (Ok tt) stL
    ∧ services (bot stL) = seq fresh (length objs)
    ∧ secretKey (bot stL) = f_secretKey f
    ∧ location (bot stL) = VStr p
    ∧ disk stL = disk st
    ∧ (∀ i o, objs !! i = Some o → heap stL (fresh + i) = o)
    ∧ (is_empty sec = true → f_secretKey f ≠ "" →
       (∃ i o k, objs !! i = Some o
                 ∧ k ∈ getEncryptedProperties (s_type o)
                 ∧ is_empty (get_prop o k) = false) →
       ∀ botpath, ∃ h',
         Save botpath stL = (Throw SecretMissing, with_heap h' stL)
         ∧ same_reads (heap stL) h').
Proof.
  intros Hp Hf Hobjs Hno. eexists. split.
  { rewrite (Load_unfold fresh p sec st f objs Hp Hf Hobjs).
    assert (negb (is_empty sec) && Nat.ltb 0 (String.length (f_secretKey f))
            = false) as ->; [|reflexivity].
    destruct Hno as [-> | ->]; [done|]. apply andb_false_r. }
  simpl. do 4 (split; [done|]). split.
  { intros i o Ho. by apply alloc_lookup. }
  intros Hsec Hk Hhas botpath.
  apply Save_rejects_throw.
  - unfold rejects; simpl. auto.
  - simpl. by apply has_secrets_alloc.
Qed.

(** X10.  Load of a file with a verifier, with a secret under which the
    verifier does not decipher: when the file holds a non-empty
    sensitive value Load raises the incorrect-secret error; when it
    holds none, the wrong secret goes unnoticed and Load returns. *)
Theorem Load_wrong_secret (fresh : loc) (p s : string) (st : state)
    (f : BotFile) (objs : list service) :
  p ≠ "" →
  disk st !! p = Some f →
  mapM of_json (f_services f) = Some objs →
  s ≠ "" → f_secretKey f ≠ "" →
  decipher s (f_secretKey f) = None →
  ∃ stL,
    Load fresh p (VStr s) st
    = Loaded (if has_secrets (alloc fresh objs (heap st))
                   (seq fresh (length objs))
              then Throw SecretIncorrect else Ok tt) stL
    ∧ secretValidated (bot stL) = false
    ∧ (has_secrets (alloc fresh objs (heap st)) (seq fresh (length objs))
         = true
       ↔ ∃ i o k, objs !! i = Some o
                  ∧ k ∈ getEncryptedProperties (s_type o)
                  ∧ is_empty (get_prop o k) = false).
Proof.
  intros Hp Hf Hobjs Hs Hk Hd.
  rewrite (Load_unfold fresh p (VStr s) st f objs Hp Hf Hobjs).
  rewrite is_empty_VStr, bool_decide_eq_false_2 by done.
  rewrite length_ltb_zero, bool_decide_eq_false_2 by done.
  change (negb false && negb false) with true. cbv iota zeta.
  set (stL := with_bot _ _).
  assert (rejects SecretIncorrect stL) as Hrej.
  { unfold rejects, stL; simpl. split; [done|]. split; [done|].
    right. by exists s. }
  destruct (for_of_rejects SecretIncorrect (λ l, decryptService l ;; ret tt)
              (seq fresh (length objs)) stL) as (h' & Hrun & _);
    [by intros; apply decryptService_rejects|done|].
  unfold decryptAll. unfold bind at 1. unfold gets at 1. cbv beta iota.
  change (services (bot stL)) with (seq fresh (length objs)).
  rewrite Hrun. exists (with_heap h' stL).
  split; [done|]. split; [done|]. apply has_secrets_alloc.
Qed.

(** ** Repeated bulk operations *)

Lemma layered_same_reads (s : string) (h0 h h' : loc → service)
    (cnt : loc → nat) :
  layered s h0 cnt h → layered s h0 cnt h' → same_reads h h'.
Proof.
  intros Hl Hl' l.
  destruct (Hl l) as (-> & -> & -> & Hr), (Hl' l) as (-> & -> & -> & Hr').
  repeat split. intros k. by rewrite Hr, Hr'.
Qed.

Lemma to_json_ext (o o' : service) :
  s_type o' = s_type o → s_id o' = s_id o → s_name o' = s_name o →
  (∀ k, get_prop o' k = get_prop o k) →
  to_json o' = to_json o.
Proof.
  intros Ht Hi Hn Hr. unfold to_json. rewrite Ht, Hi, Hn. f_equal.
  apply map_eq. intros k. rewrite !lookup_omap.
  specialize (Hr k). unfold get_prop in Hr.
  destruct (s_props o' !! k) as [[|x]|], (s_props o !! k) as [[|y]|];
    simpl in *; congruence.
Qed.

Lemma bot_json_same_reads (b : BotConfig) (h h' : loc → service) :
  same_reads h h' → bot_json b h' = bot_json b h.
Proof.
  intros Hsame. unfold bot_json. f_equal. apply list_fmap_ext.
  intros i l _. destruct (Hsame l) as (? & ? & ? & ?). by apply to_json_ext.
Qed.

(** X12.  With an accepted secret, decryptAll undoes encryptAll: every
    service reads as before.  encryptAll does not notice ciphertext: run
    a second time it enciphers the ciphertexts again. *)
Theorem encryptAll_decryptAll (st : state) (s : string) :
  accepts s st →
  ∃ st1 st2 st3,
    encryptAll st = (Ok tt, st1)
    ∧ layered s (heap st)
        (λ l, count_occ Nat.eq_dec (services (bot st)) l) (heap st1)
    ∧ decryptAll st1 = (Ok tt, st2)
    ∧ same_reads (heap st) (heap st2)
    ∧ encryptAll st1 = (Ok tt, st3)
    ∧ layered s (heap st)
        (λ l, 2 * count_occ Nat.eq_dec (services (bot st)) l) (heap st3).
Proof.
  intros Hacc.
  destruct (for_encrypt_layered s (heap st) (services (bot st)) (λ _, 0)
              st Hacc (layered_0 s (heap st)))
    as (st1 & Hrun1 & Hsame1 & Hlay1).
  simpl in Hlay1.
  destruct (same_store_fields _ _ Hsame1) as (Hsv1 & _).
  pose proof (accepts_same_store _ _ _ Hacc Hsame1) as Hacc1.
  destruct (for_decrypt_layered s (heap st) (services (bot st)) (λ _, 0) st1)
    as (st2 & Hrun2 & _ & Hlay2); [done..|].
  destruct (for_encrypt_layered s (heap st) (services (bot st)) _
              st1 Hacc1 Hlay1) as (st3 & Hrun3 & _ & Hlay3).
  exists st1, st2, st3. unfold encryptAll, decryptAll, bind, gets.
  rewrite Hsv1. cbv beta iota.
  split; [done|]. split; [done|]. split; [done|].
  split; [intros l; by apply (layered_0_reads s)|].
  split; [done|]. eapply layered_ext; [|done]. intros l. simpl. lia.
Qed.

(** X13.  Save is repeatable: with an accepted secret, a second Save to the
    same path writes the very file the first one wrote. *)
Theorem Save_twice_same_file (st : state) (botpath : value) (p s : string) :
  or_value botpath (location (bot st)) = VStr p → p ≠ "" →
  accepts s st →
  ∃ st1 st2 f,
    Save botpath st = (Ok tt, st1)
    ∧ Save botpath st1 = (Ok tt, st2)
    ∧ disk st1 !! p = Some f
    ∧ disk st2 = disk st1.
Proof.
  intros Hpath Hp Hacc.
  destruct (Save_layered st botpath p s (heap st) (λ _, 0) Hpath Hp Hacc
              (layered_0 s (heap st)))
    as (st1 & h1 & Hrun1 & Hd1 & Hlay1 & Hheap1 & _ & Hb1).
  assert (accepts s st1) as Hacc1 by (by eapply accepts_bot).
  assert (services (bot st1) = services (bot st)
          ∧ location (bot st1) = location (bot st)
          ∧ ∀ h, bot_json (bot st1) h = bot_json (bot st) h)
    as (Hsv & Hloc & Hbj).
  { by destruct Hb1 as [-> | ->]. }
  destruct (Save_layered st1 botpath p s (heap st) (λ _, 0))
    as (st2 & h2 & Hrun2 & Hd2 & Hlay2 & _); [by rewrite Hloc|done..|].
  rewrite Hsv in Hlay2.
  exists st1, st2, (bot_json (bot st) h1).
  split; [done|]. split; [done|].
  split; [by rewrite Hd1, lookup_insert_eq|].
  rewrite Hd2, Hd1, insert_insert_eq. f_equal.
  rewrite Hbj. apply bot_json_same_reads.
  by apply (layered_same_reads s (heap st) _ _ _ Hlay1 Hlay2).
Qed.

(** X14.  A Save that could not write leaves the live services enciphered;
    the next Save, to a usable path, enciphers them a second time: the
    file holds every listed sensitive value enciphered twice, and the
    live store is left with it enciphered once. *)
Theorem Save_retry_double_enciphers (st : state) (botpath : value)
    (p s : string) :
  accepts s st →
  is_empty (or_value botpath (location (bot st))) = true →
  p ≠ "" →
  NoDup (services (bot st)) →
  ∃ st1 st2 h2,
    Save botpath st = (Throw WriteError, st1)
    ∧ Save (VStr p) st1 = (Ok tt, st2)
    ∧ disk st2 = <[p := bot_json (bot st) h2]> (disk st)
    ∧ ∀ l k, l ∈ services (bot st) →
             k ∈ getEncryptedProperties (s_type (heap st l)) →
             get_prop (h2 l) k
               = encrypt_pure s (encrypt_pure s (get_prop (heap st l) k))
             ∧ get_prop (heap st2 l) k
               = encrypt_pure s (get_prop (heap st l) k).
Proof.
  intros Hacc Hpath Hp Hnd. pose proof Hacc as (_ & Hk & _).
  destruct (for_encrypt_layered s (heap st) (services (bot st)) (λ _, 0)
              st Hacc (layered_0 s (heap st)))
    as (st1 & Hrun1 & Hsame1 & Hlay1).
  destruct (same_store_fields _ _ Hsame1) as (Hsv1 & Hloc1 & _).
  pose proof (accepts_same_store _ _ _ Hacc Hsame1) as Hacc1.
  assert (or_value (VStr p) (location (bot st1)) = VStr p) as Hpath2.
  { unfold or_value. by rewrite is_empty_VStr, bool_decide_eq_false_2. }
  destruct (Save_layered st1 (VStr p) p s (heap st) _ Hpath2 Hp Hacc1 Hlay1)
    as (st2 & h2 & Hrun2 & Hd2 & Hlay2 & Hheap2 & _ & _).
  exists st1, st2, h2. split.
  { unfold Save. unfold bind at 1. unfold gets at 1.
    rewrite length_ltb_zero, bool_decide_eq_false_2 by done.
    simpl negb. cbv iota.
    unfold bind at 1. unfold encryptAll at 1. unfold bind at 1.
    unfold gets at 1. rewrite Hrun1.
    unfold bind at 1. unfold gets at 1. unfold bind at 1.
    rewrite Hloc1. unfold writeJson.
    destruct (or_value botpath (location (bot st))) as [|q]; [done|].
    simpl in Hpath. by rewrite Hpath. }
  split; [done|]. split.
  { rewrite Hd2. destruct Hsame1 as (-> & _ & Hb).
    f_equal. by destruct Hb as [-> | ->]. }
  intros l k Hl Hk'.
  destruct (Hlay2 l) as (_ & _ & _ & ->), (Hheap2 l) as (_ & _ & _ & ->).
  rewrite !decide_True by done. rewrite Hsv1.
  apply NoDup_ListNoDup in Hnd.
  rewrite (proj1 (NoDup_count_occ' Nat.eq_dec _) Hnd l)
    by (by apply list_elem_of_In).
  done.
Qed.

(** X15.  validateSecretKey looks only at whether the verifier deciphers: on
    a store with a verifier, a non-empty secret and an unset flag it
    succeeds exactly when deciphering the verifier under the secret
    raises nothing, whatever text comes out; it then sets the flag and
    changes nothing else.  Otherwise it raises the incorrect-secret
    error and changes nothing. *)
Theorem validateSecretKey_decipherable (st : state) (s : string) :
  secretValidated (bot st) = false →
  secret (bot st) = VStr s → s ≠ "" →
  secretKey (bot st) ≠ "" →
  (∀ token, decipher s (secretKey (bot st)) = Some token →
     validateSecretKey st
       = (Ok tt, with_bot (with_secretValidated true (bot st)) st))
  ∧ (decipher s (secretKey (bot st)) = None →
     validateSecretKey st = (Throw SecretIncorrect, st))
  ∧ (fst (validateSecretKey st) = Ok tt
     ↔ is_Some (decipher s (secretKey (bot st)))).
Proof.
  intros Hv Hs Hne Hk.
  rewrite (validateSecretKey_check st s) by done.
  destruct (decipher s (secretKey (bot st))) as [token|].
  - split; [done|]. split; [done|]. split; [by eexists|done].
  - split; [done|]. split; [done|]. split; [done|by intros [? ?]].
Qed.

(** ** connectService followed by a disconnect method *)

(** X11.  After a successful connectService, disconnectService with the type
    and id of the connected service removes that service again: the
    list is the one before the connect.  disconnectServiceByNameOrId
    with the assigned name does the same when no service listed before
    has that name as its id; when one has, the first such service is
    removed instead and the new service stays. *)
Theorem connectService_then_disconnect (st st1 : state) (l : loc) :
  connectService l st = (Ok tt, st1) →
  disconnectService (s_type (heap st l)) (s_id (heap st l)) st1
    = (Ok tt, with_bot (with_services (services (bot st)) (bot st1)) st1)
  ∧ ((∀ x, x ∈ services (bot st) →
           s_id (heap st x) ≠ s_name (heap st1 l)) →
     disconnectServiceByNameOrId (s_name (heap st1 l)) st1
       = (Ok tt, with_bot (with_services (services (bot st)) (bot st1)) st1))
  ∧ (∀ pre x post,
       services (bot st) = pre ++ x :: post →
       (∀ y, y ∈ pre → s_id (heap st y) ≠ s_name (heap st1 l)) →
       s_id (heap st x) = s_name (heap st1 l) →
       disconnectServiceByNameOrId (s_name (heap st1 l)) st1
         = (Ok tt,
            with_bot (with_services (pre ++ post ++ [l]) (bot st1)) st1)).
Proof.
  intros Hrun.
  destruct (decide (Exists (same_type_id (heap st) l) (services (bot st))))
    as [Hdup|Hfresh].
  { apply Exists_exists in Hdup as (s & Hin & Hs).
    by rewrite (connectService_dup st l s) in Hrun. }
  assert (∀ s, s ∈ services (bot st) → ¬ same_type_id (heap st) l s)
    as Hfresh'.
  { intros s Hin Hs. apply Hfresh, Exists_exists. by exists s. }
  destruct (connectService_fresh st l Hfresh') as (n & _ & Hrun' & Hfree & _).
  rewrite Hrun' in Hrun. inversion Hrun; subst; clear Hrun Hrun'.
  set (name := nth_name (s_name (heap st l)) n) in *.
  set (st1 := connected l name st).
  pose proof (fresh_not_listed st l Hfresh') as Hl.
  assert (∀ x, x ∈ services (bot st) → heap st1 x = heap st x) as Hold.
  { intros x Hx. unfold st1; simpl. rewrite fn_lookup_insert_ne; [done|].
    by intros ->. }
  assert (heap st1 l = set_name (heap st l) name) as Hnew.
  { unfold st1; simpl. by rewrite fn_lookup_insert. }
  assert (services (bot st1) = services (bot st) ++ [l]) as Hsv by done.
  assert (s_name (heap st1 l) = name) as Hname by (by rewrite Hnew).
  rewrite Hname. split; [|split].
  - unfold disconnectService, bind, gets; cbv beta iota zeta.
    rewrite Hsv, remove_first_split; [by rewrite app_nil_r| |].
    + intros y Hy. rewrite (Hold y Hy).
      destruct (decide (s_type (heap st y) = s_type (heap st l)));
        [|by rewrite bool_decide_eq_false_2].
      rewrite bool_decide_eq_true_2 by done. simpl.
      apply String.eqb_neq. intros Hid. by apply (Hfresh' y Hy).
    + rewrite Hnew. simpl. by rewrite bool_decide_eq_true_2, String.eqb_refl.
  - intros Hids.
    unfold disconnectServiceByNameOrId, bind, gets; cbv beta iota zeta.
    rewrite Hsv, remove_first_split; [by rewrite app_nil_r| |].
    + intros y Hy. rewrite (Hold y Hy). apply orb_false_intro.
      * apply String.eqb_neq. by apply Hids.
      * apply String.eqb_neq. intros Hn. apply Hfree.
        unfold taken_names. apply list_elem_of_fmap. by exists y.
    + rewrite Hnew. simpl. rewrite String.eqb_refl. apply orb_true_r.
  - intros pre x post Hsplit Hpre Hx.
    assert (x ∈ services (bot st)) as Hxin.
    { rewrite Hsplit. apply elem_of_app. right. by left. }
    unfold disconnectServiceByNameOrId, bind, gets; cbv beta iota zeta.
    rewrite Hsv, Hsplit. rewrite <- app_assoc, <- app_comm_cons.
    rewrite (remove_first_split _ pre (post ++ [l]) x); [done| |].
    + intros y Hy.
      assert (y ∈ services (bot st)) as Hyin.
      { rewrite Hsplit. apply elem_of_app. by left. }
      rewrite (Hold y Hyin). apply orb_false_intro.
      * apply String.eqb_neq. by apply Hpre.
      * apply String.eqb_neq. intros Hn. apply Hfree.
        unfold taken_names. apply list_elem_of_fmap. by exists y.
    + rewrite (Hold x Hxin), Hx. by rewrite String.eqb_refl.
Qed.

End BotConfig.

(** * Concrete stores

    The statements below run the methods with the stand-in cipher on the
    sample stores. *)

(** C2.  On a loaded store with the right secret, encryptService leaves
    the [appPassword] "pw" of the bot-service object 0 in clear, both in
    memory and in the file written by Save, while the same call
    enciphers the [appPassword] of the endpoint object 1. *)
Theorem encryptService_abs_leaves_appPassword :
  s_type (heap loaded_store 0) = AzureBotService
  ∧ get_prop (heap loaded_store 0) "appPassword" = VStr "pw"
  ∧ fst (encryptService tag_cipher tag_decipher count_uuid 0 loaded_store)
    = Ok 0
  ∧ get_prop
      (heap (snd (encryptService tag_cipher tag_decipher count_uuid 0
                    loaded_store)) 0) "appPassword"
    = VStr "pw"
  ∧ get_prop
      (heap (snd (encryptService tag_cipher tag_decipher count_uuid 1
                    loaded_store)) 1) "appPassword"
    = VStr (tag_cipher "abc" "pw")
  ∧ fst (Save tag_cipher tag_decipher count_uuid VUndef loaded_store) = Ok tt
  ∧ (λ f, (λ j, j_props j !! "appPassword") <$> f_services f)
      <$> disk (snd (Save tag_cipher tag_decipher count_uuid VUndef
                       loaded_store)) !! "my.bot"
    = Some [Some "pw"; Some (tag_cipher "abc" "pw")].
Proof. repeat split; by vm_compute. Qed.

(** The first three names handed out for "Foo". *)
Example connectService_Foo :
  (λ st, (fst st, (λ l, s_name (heap (snd st) l)) <$> services (bot (snd st))))
    ((connectService 0 ;; connectService 1 ;; connectService 2)
       (sample_state (newBotConfig VUndef)))
  = (Ok tt, ["Foo"; "Foo (2)"; "Foo (3)"]).
Proof. by vm_compute. Qed.

(** C1, counterexample.  clearSecret succeeds on the loaded store and
    leaves the secret "abc" in place; encryptValue and decryptValue of
    "pw" then return "pw" and raise nothing. *)
Lemma clearSecret_then_no_error :
  fst (clearSecret tag_cipher tag_decipher count_uuid loaded_store) = Ok tt
  ∧ secret (bot (snd (clearSecret tag_cipher tag_decipher count_uuid
                        loaded_store))) = VStr "abc"
  ∧ fst (encryptValue tag_cipher tag_decipher count_uuid (VStr "pw")
           (snd (clearSecret tag_cipher tag_decipher count_uuid loaded_store)))
    = Ok (VStr "pw")
  ∧ fst (decryptValue tag_cipher tag_decipher count_uuid (VStr "pw")
           (snd (clearSecret tag_cipher tag_decipher count_uuid loaded_store)))
    = Ok (VStr "pw")
  ∧ fst (encryptValue tag_cipher tag_decipher count_uuid (VStr "pw")
           locked_store)
    = Throw SecretMissing.
Proof. repeat split; by vm_compute. Qed.

(** C3, counterexample.  A store with the secret "abc" and no verifier
    is saved with its [appPassword] values in clear; a store with a
    verifier and no secret is not saved at all: Save raises the
    missing-secret error and writes nothing. *)
Lemma Save_follows_verifier :
  secret (bot new_store) = VStr "abc"
  ∧ fst (Save tag_cipher tag_decipher count_uuid VUndef new_store) = Ok tt
  ∧ (λ f, (λ j, j_props j !! "appPassword") <$> f_services f)
      <$> disk (snd (Save tag_cipher tag_decipher count_uuid VUndef
                       new_store)) !! "my.bot"
    = Some [Some "pw"; Some "pw"]
  ∧ tag_cipher "abc" "pw" ≠ "pw"
  ∧ secret (bot locked_store) = VUndef
  ∧ fst (Save tag_cipher tag_decipher count_uuid VUndef locked_store)
    = Throw SecretMissing
  ∧ disk (snd (Save tag_cipher tag_decipher count_uuid VUndef locked_store))
      !! "my.bot" = None.
Proof. repeat split; by vm_compute. Qed.

(** ** The theorems at work on the sample stores *)

(** C4 on the store built with "abc": the first validation creates the
    verifier from token 0. *)
Lemma validateSecretKey_first_call_new_store :
  ∃ st',
    validateSecretKey tag_cipher tag_decipher count_uuid new_store
      = (Ok tt, st')
    ∧ secretKey (bot st') = tag_cipher "abc" (count_uuid 0)
    ∧ secretValidated (bot st') = true.
Proof.
  destruct (validateSecretKey_first_call tag_cipher tag_decipher count_uuid
              tag_cipher_nonempty new_store "abc")
    as (st' & Hrun & Hkey & _ & _ & Hflag & _);
    [reflexivity|reflexivity|discriminate|reflexivity|].
  exists st'. auto.
Defined.

(** C9 on the loaded store: "pw" survives encryption and decryption. *)
Lemma decryptValue_encryptValue_loaded_store :
  ∃ c,
    encryptValue tag_cipher tag_decipher count_uuid (VStr "pw")
      (with_bot (with_secretValidated true (bot loaded_store)) loaded_store)
    = (Ok (VStr c),
       with_bot (with_secretValidated true (bot loaded_store)) loaded_store)
    ∧ decryptValue tag_cipher tag_decipher count_uuid (VStr c)
        (with_bot (with_secretValidated true (bot loaded_store)) loaded_store)
      = (Ok (VStr "pw"),
         with_bot (with_secretValidated true (bot loaded_store)) loaded_store).
Proof.
  apply (decryptValue_encryptValue tag_cipher tag_decipher count_uuid
           tag_cipher_nonempty tag_decipher_cipher loaded_store
           (with_bot (with_secretValidated true (bot loaded_store))
              loaded_store) "abc" "pw");
    reflexivity.
Defined.

(** C1 (as the code has it) on the loaded store. *)
Lemma clearSecret_then_plaintext_loaded_store :
  encryptValue tag_cipher tag_decipher count_uuid (VStr "pw")
    (snd (clearSecret tag_cipher tag_decipher count_uuid loaded_store))
  = (Ok (VStr "pw"),
     snd (clearSecret tag_cipher tag_decipher count_uuid loaded_store)).
Proof.
  apply (proj1 (proj2 (clearSecret_then_plaintext tag_cipher tag_decipher
                         count_uuid loaded_store))).
  by vm_compute.
Defined.

(** C5: object 3 has the type and id of the connected object 2 and
    another name. *)
Lemma connectService_duplicate_luis :
  s_name (sample_heap 2) ≠ s_name (sample_heap 3)
  ∧ connectService 3 (sample_state (sample_bot VUndef "" [2]))
    = (Throw (AlreadyConnected "luis-1"),
       sample_state (sample_bot VUndef "" [2])).
Proof.
  split; [by vm_compute|].
  apply (proj1 (connectService_duplicate
                  (sample_state (sample_bot VUndef "" [2])) 3 2
                  eq_refl eq_refl)).
  by left.
Defined.

(** C6: the endpoint "Foo" connected after the bot service "Foo". *)
Lemma connectService_name_second_Foo :
  ∃ n st',
    connectService 1 (sample_state (sample_bot VUndef "" [0])) = (Ok tt, st')
    ∧ s_name (heap st' 1) = nth_name "Foo" n
    ∧ 1 ≤ n.
Proof.
  destruct (connectService_name (sample_state (sample_bot VUndef "" [0])) 1)
    as (n & st' & Hrun & _ & Hname & Hn & _).
  { intros s Hs%list_elem_of_singleton [Ht _]. subst s. discriminate Ht. }
  exists n, st'. auto.
Defined.

(** C10: after the call the caller's object 1 is named "Foo (2)". *)
Lemma connectService_renames_argument_Foo :
  s_name (heap (connected 1 "Foo (2)"
                  (sample_state (sample_bot VUndef "" [0]))) 1)
  ≠ s_name (sample_heap 1).
Proof.
  apply (connectService_renames_argument
           (sample_state (sample_bot VUndef "" [0]))
           (connected 1 "Foo (2)" (sample_state (sample_bot VUndef "" [0])))
           1);
    [reflexivity|].
  apply (bool_decide_unpack _). by vm_compute.
Defined.

(** C7: the endpoint "ep-1" sits between two other services. *)
Lemma disconnectService_first_match_endpoint :
  disconnectService Endpoint "ep-1"
    (sample_state (sample_bot VUndef "" [0; 1; 2]))
  = (Ok tt,
     with_bot (with_services [0; 2] (sample_bot VUndef "" [0; 1; 2]))
       (sample_state (sample_bot VUndef "" [0; 1; 2]))).
Proof.
  apply (proj1 (disconnectService_first_match
                  (sample_state (sample_bot VUndef "" [0; 1; 2]))
                  Endpoint "ep-1") [0] 1 [2]).
  - reflexivity.
  - intros x Hx%list_elem_of_singleton [Ht _]. subst x. discriminate Ht.
  - split; reflexivity.
Defined.

(** C8: three services are named "Foo"; the first one goes. *)
Lemma disconnectServiceByNameOrId_first_match_Foo :
  disconnectServiceByNameOrId "Foo"
    (sample_state (sample_bot VUndef "" [0; 1; 2]))
  = (Ok tt,
     with_bot (with_services [1; 2] (sample_bot VUndef "" [0; 1; 2]))
       (sample_state (sample_bot VUndef "" [0; 1; 2]))).
Proof.
  apply (proj1 (disconnectServiceByNameOrId_first_match
                  (sample_state (sample_bot VUndef "" [0; 1; 2])) "Foo")
           [] 0 [1; 2]).
  - reflexivity.
  - intros x Hx. by apply not_elem_of_nil in Hx.
  - right. reflexivity.
Defined.

(** C3 (as the code has it) on the loaded store, saved to its load
    location. *)
Lemma Save_spec_loaded_store :
  ∃ st' h1,
    Save tag_cipher tag_decipher count_uuid VUndef loaded_store = (Ok tt, st')
    ∧ disk st' = <[ "my.bot" := bot_json (bot loaded_store) h1 ]> ∅
    ∧ ∀ l k, get_prop (heap st' l) k = get_prop (heap loaded_store l) k.
Proof.
  destruct (proj2 (Save_spec tag_cipher tag_decipher count_uuid
                     tag_cipher_nonempty tag_decipher_cipher
                     loaded_store VUndef "my.bot" eq_refl
                     ltac:(discriminate)) "abc")
    as (st' & h1 & Hrun & Hdisk & _ & _ & Hreads & _).
  { split; [reflexivity|]. split; [by vm_compute|]. right.
    split; [discriminate|]. exists "token-0". by vm_compute. }
  exists st', h1. split; [done|]. split; [done|].
  intros l k. by destruct (Hreads l) as (_ & _ & _ & ->).
Defined.

(** * The further theorems at work on the sample stores *)

Lemma loaded_store_accepts : accepts tag_decipher "abc" loaded_store.
Proof.
  split; [reflexivity|]. split; [by vm_compute|]. right.
  split; [discriminate|]. exists "token-0". by vm_compute.
Qed.

Lemma unsaved_store_accepts : accepts tag_decipher "abc" unsaved_store.
Proof. split; [reflexivity|]. split; [by vm_compute|]. by left. Qed.

Lemma locked_store_rejects : rejects tag_decipher SecretMissing locked_store.
Proof. split; [reflexivity|]. split; [by vm_compute|]. by left. Qed.

(** Four connects (the last a duplicate), a disconnect and a Save on a
    new store: no two listed services share type and id. *)
Lemma run_calls_unique_type_id_sample :
  unique_type_id
    (run_calls tag_cipher tag_decipher count_uuid
       [CallConnectService 0; CallConnectService 1; CallConnectService 2;
        CallConnectService 3; CallDisconnectService Endpoint "ep-1";
        CallSave (VStr "my.bot")]
       (sample_state (newBotConfig (VStr "abc")))).
Proof.
  apply (proj2 (run_calls_unique_type_id tag_cipher tag_decipher count_uuid
                  _ (sample_state (newBotConfig (VStr "abc"))))).
  reflexivity.
Defined.

(** The same calls: no two listed services share a name. *)
Lemma run_calls_unique_names_sample :
  unique_names
    (run_calls tag_cipher tag_decipher count_uuid
       [CallConnectService 0; CallConnectService 1; CallConnectService 2;
        CallConnectService 3; CallDisconnectService Endpoint "ep-1";
        CallSave (VStr "my.bot")]
       (sample_state (newBotConfig (VStr "abc")))).
Proof.
  apply (proj2 (run_calls_unique_names tag_cipher tag_decipher count_uuid
                  _ (sample_state (newBotConfig (VStr "abc"))))).
  reflexivity.
Defined.

(** After clearSecret on the loaded store, validating and encrypting
    again leaves the verifier empty. *)
Lemma clearSecret_is_final_loaded_store :
  secretKey
    (bot (run_calls tag_cipher tag_decipher count_uuid
            [CallValidateSecretKey; CallEncryptAll; CallSave VUndef]
            (snd (clearSecret tag_cipher tag_decipher count_uuid
                    loaded_store))))
  = "".
Proof.
  apply (clearSecret_is_final tag_cipher tag_decipher count_uuid
           loaded_store).
  by vm_compute.
Defined.

(** The language-understanding object 2 through encryptService and
    decryptService. *)
Lemma encryptService_fields_luis :
  ∃ st1 st2,
    encryptService tag_cipher tag_decipher count_uuid 2 loaded_store
      = (Ok 2, st1)
    ∧ get_prop (heap st1 2) "authoringKey" = VStr (tag_cipher "abc" "ak")
    ∧ decryptService tag_cipher tag_decipher count_uuid 2 st1 = (Ok 2, st2)
    ∧ get_prop (heap st2 2) "authoringKey" = VStr "ak".
Proof.
  destruct (encryptService_fields tag_cipher tag_decipher count_uuid
              tag_cipher_nonempty tag_decipher_cipher loaded_store 2 "abc"
              loaded_store_accepts)
    as (st1 & st2 & Henc & Hr1 & _ & _ & _ & _ & Hdec & Hr2 & _).
  exists st1, st2. rewrite Hr1, Hr2. by repeat split.
Defined.

(** Encrypting on the store that has a verifier and no secret. *)
Lemma sensitive_operations_rejected_locked_store :
  encryptValue tag_cipher tag_decipher count_uuid (VStr "pw") locked_store
  = (Throw SecretMissing, locked_store).
Proof.
  apply (sensitive_operations_rejected tag_cipher tag_decipher count_uuid
           SecretMissing locked_store (VStr "pw") locked_store_rejects).
  reflexivity.
Defined.

(** Save on the store without location, given no path. *)
Lemma Save_unwritable_unsaved_store :
  ∃ st',
    Save tag_cipher tag_decipher count_uuid VUndef unsaved_store
      = (Throw WriteError, st')
    ∧ get_prop (heap st' 1) "appPassword" = VStr (tag_cipher "abc" "pw").
Proof.
  destruct (Save_unwritable tag_cipher tag_decipher count_uuid
              unsaved_store VUndef "abc" unsaved_store_accepts eq_refl)
    as (st' & Hrun & _ & _ & Henc).
  exists st'. split; [done|].
  rewrite (Henc ltac:(apply (bool_decide_unpack _); by vm_compute) 1
             "appPassword"); [done|by left|by left].
Defined.

(** Save on the store that has a verifier and no secret. *)
Lemma Save_rejects_locked_store :
  ∃ h',
    Save tag_cipher tag_decipher count_uuid VUndef locked_store
    = (Throw SecretMissing, with_heap h' locked_store).
Proof.
  destruct (proj1 (Save_rejects tag_cipher tag_decipher count_uuid
                     SecretMissing locked_store VUndef locked_store_rejects))
    as (h' & Hrun & _); [by vm_compute|].
  by exists h'.
Defined.

(** The loaded store saved to its location and loaded back with "abc". *)
Lemma Save_Load_round_trip_loaded_store :
  ∃ st1 st2,
    Save tag_cipher tag_decipher count_uuid VUndef loaded_store = (Ok tt, st1)
    ∧ Load tag_cipher tag_decipher count_uuid 10 "my.bot" (VStr "abc") st1
      = Loaded (Ok tt) st2
    ∧ services (bot st2) = [10; 11]
    ∧ get_prop (heap st2 11) "appPassword" = VStr "pw".
Proof.
  destruct (Save_Load_round_trip tag_cipher tag_decipher count_uuid
              tag_cipher_nonempty tag_decipher_cipher
              loaded_store VUndef "my.bot" "abc" 10)
    as (st1 & st2 & Hsave & Hload & Hsv & _ & _ & _ & _ & Hobj).
  - reflexivity.
  - discriminate.
  - reflexivity.
  - discriminate.
  - by vm_compute.
  - exists "token-0". by vm_compute.
  - apply (bool_decide_unpack _). by vm_compute.
  - exists st1, st2. do 3 (split; [done|]).
    by destruct (Hobj 1 1 eq_refl) as (_ & _ & _ & ->).
Defined.

(** The sample file loaded without a secret: the ciphertext comes back
    as the value of the field. *)
Lemma Load_without_secret_sample_file :
  ∃ stL,
    Load tag_cipher tag_decipher count_uuid 10 "enc.bot" VUndef disk_store
      = Loaded (Ok tt) stL
    ∧ get_prop (heap stL 10) "appPassword" = VStr (tag_cipher "abc" "pw").
Proof.
  destruct (Load_without_secret tag_cipher tag_decipher count_uuid
              10 "enc.bot" VUndef disk_store sample_file sample_objects)
    as (stL & Hload & _ & _ & _ & _ & Hobj & _).
  - discriminate.
  - by vm_compute.
  - by vm_compute.
  - by left.
  - exists stL. split; [done|].
    change 10 with (10 + 0). by rewrite (Hobj 0 _ eq_refl).
Defined.

(** The sample file loaded with the secret "wrong". *)
Lemma Load_wrong_secret_sample_file :
  ∃ stL,
    Load tag_cipher tag_decipher count_uuid 10 "enc.bot" (VStr "wrong")
      disk_store
    = Loaded (Throw SecretIncorrect) stL.
Proof.
  destruct (Load_wrong_secret tag_cipher tag_decipher count_uuid
              10 "enc.bot" "wrong" disk_store sample_file sample_objects)
    as (stL & Hload & _).
  - discriminate.
  - by vm_compute.
  - by vm_compute.
  - discriminate.
  - by vm_compute.
  - by vm_compute.
  - exists stL. by rewrite Hload.
Defined.

(** The endpoint "Foo" connected after the bot service "Foo", then
    disconnected by type and id. *)
Lemma connectService_then_disconnect_Foo :
  disconnectService Endpoint "ep-1"
    (connected 1 "Foo (2)" (sample_state (sample_bot VUndef "" [0])))
  = (Ok tt,
     with_bot
       (with_services [0]
          (bot (connected 1 "Foo (2)"
                  (sample_state (sample_bot VUndef "" [0])))))
       (connected 1 "Foo (2)" (sample_state (sample_bot VUndef "" [0])))).
Proof.
  exact (proj1 (connectService_then_disconnect
                  (sample_state (sample_bot VUndef "" [0]))
                  (connected 1 "Foo (2)"
                     (sample_state (sample_bot VUndef "" [0])))
                  1 eq_refl)).
Defined.

(** encryptAll, then decryptAll or encryptAll again, on the loaded
    store. *)
Lemma encryptAll_decryptAll_loaded_store :
  ∃ st1 st2 st3,
    encryptAll tag_cipher tag_decipher count_uuid loaded_store = (Ok tt, st1)
    ∧ decryptAll tag_cipher tag_decipher count_uuid st1 = (Ok tt, st2)
    ∧ same_reads (heap loaded_store) (heap st2)
    ∧ encryptAll tag_cipher tag_decipher count_uuid st1 = (Ok tt, st3).
Proof.
  destruct (encryptAll_decryptAll tag_cipher tag_decipher count_uuid
              tag_cipher_nonempty tag_decipher_cipher loaded_store "abc"
              loaded_store_accepts)
    as (st1 & st2 & st3 & H1 & _ & H2 & Hsame & H3 & _).
  by exists st1, st2, st3.
Defined.

(** Two Saves of the loaded store in a row. *)
Lemma Save_twice_same_file_loaded_store :
  ∃ st1 st2,
    Save tag_cipher tag_decipher count_uuid VUndef loaded_store = (Ok tt, st1)
    ∧ Save tag_cipher tag_decipher count_uuid VUndef st1 = (Ok tt, st2)
    ∧ disk st2 = disk st1.
Proof.
  destruct (Save_twice_same_file tag_cipher tag_decipher count_uuid
              tag_cipher_nonempty tag_decipher_cipher
              loaded_store VUndef "my.bot" "abc" eq_refl
              ltac:(discriminate) loaded_store_accepts)
    as (st1 & st2 & f & H1 & H2 & _ & Hd).
  by exists st1, st2.
Defined.

(** Save without path on the store without location, then Save to
    "new.bot". *)
Lemma Save_retry_double_enciphers_unsaved_store :
  ∃ st1 st2 h2,
    Save tag_cipher tag_decipher count_uuid VUndef unsaved_store
      = (Throw WriteError, st1)
    ∧ Save tag_cipher tag_decipher count_uuid (VStr "new.bot") st1
      = (Ok tt, st2)
    ∧ get_prop (h2 1) "appPassword"
      = VStr (tag_cipher "abc" (tag_cipher "abc" "pw"))
    ∧ get_prop (heap st2 1) "appPassword" = VStr (tag_cipher "abc" "pw").
Proof.
  destruct (Save_retry_double_enciphers tag_cipher tag_decipher count_uuid
              tag_cipher_nonempty tag_decipher_cipher
              unsaved_store VUndef "new.bot" "abc"
              unsaved_store_accepts eq_refl ltac:(discriminate)
              ltac:(apply (bool_decide_unpack _); by vm_compute))
    as (st1 & st2 & h2 & H1 & H2 & _ & Hr).
  exists st1, st2, h2. do 2 (split; [done|]).
  destruct (Hr 1 "appPassword") as [-> ->]; [by left|by left|done].
Defined.

(** The verifier of the loaded store deciphers under "abc". *)
Lemma validateSecretKey_decipherable_loaded_store :
  validateSecretKey tag_cipher tag_decipher count_uuid loaded_store
  = (Ok tt, with_bot (with_secretValidated true (bot loaded_store))
              loaded_store).
Proof.
  apply (proj1 (validateSecretKey_decipherable tag_cipher tag_decipher
                  count_uuid loaded_store "abc" eq_refl eq_refl
                  ltac:(discriminate) ltac:(by vm_compute)) "token-0").
  by vm_compute.
Defined.
